(** * FileScope: a shallow embedding of [main.go]

    The program walks a directory tree, keeps the files that reach a size
    floor, and prints ranked and grouped views of them.  The embedding
    follows the source function by function.  Go's [int] and [int64] are
    [Z] with the two's-complement wrap-around written out, strings are
    byte strings ([string]), maps are [gmap string _], [float64] is
    [spec_float] at precision 53, and the instants of package [time] are
    nanosecond counts from the zero instant. *)

From Stdlib Require Import ZArith String Ascii List Lia Permutation Sorted.
From Stdlib Require Import Floats.SpecFloat.
From stdpp Require Import gmap strings list fin_maps pretty.

Open Scope Z_scope.

(** ** Machine integers *)

Definition maxInt64 : Z := 2 ^ 63 - 1.
Definition minInt64 : Z := - 2 ^ 63.

(** Two's-complement wrap-around of a 64-bit signed result. *)
Definition wrap64 (z : Z) : Z := (z + 2 ^ 63) mod 2 ^ 64 - 2 ^ 63.

(** ** Package [strings] and [path/filepath] *)

(** [os.IsPathSeparator] on a Unix system. *)
Definition IsPathSeparator (c : ascii) : bool := Ascii.eqb c "/"%char.

Definition isDot (c : ascii) : bool := Ascii.eqb c "."%char.

(** The loop of [filepath.Ext]:
    [for i := len(path) - 1; i >= 0 && !os.IsPathSeparator(path[i]); i--],
    with [n] standing for [i + 1]. *)
Fixpoint Ext_loop (path : string) (n : nat) : string :=
  match n with
  | O => EmptyString
  | S i =>
      match String.get i path with
      | None => EmptyString
      | Some c =>
          if IsPathSeparator c then EmptyString
          else if isDot c then String.substring i (String.length path - i) path
          else Ext_loop path i
      end
  end.

Definition filepath_Ext (path : string) : string :=
  Ext_loop path (String.length path).

(** Every byte of [s] passes [p]. *)
Fixpoint allChars (p : ascii -> bool) (s : string) : bool :=
  match s with
  | EmptyString => true
  | String c s' => p c && allChars p s'
  end.

(** A byte below [utf8.RuneSelf]. *)
Definition isASCII (c : ascii) : bool := (nat_of_ascii c <? 128)%nat.

(** The path that [strings.ToLower] takes on a string of ASCII bytes:
    ['A'..'Z'] go to ['a'..'z'] and every other byte is kept. *)
Definition lowerByte (c : ascii) : ascii :=
  let n := nat_of_ascii c in
  if ((65 <=? n) && (n <=? 90))%nat then ascii_of_nat (n + 32) else c.

Fixpoint lowerASCII (s : string) : string :=
  match s with
  | EmptyString => EmptyString
  | String c s' => String (lowerByte c) (lowerASCII s')
  end.

(** ** Package [time] *)

(** An instant, in nanoseconds from the zero value of [time.Time]. *)
Definition Time : Type := Z.

Definition zeroTime : Time := 0.
Definition IsZero (t : Time) : bool := t =? 0.
Definition Before (t u : Time) : bool := t <? u.

(** [time.Duration] is an [int64] count of nanoseconds. *)
Definition Second : Z := 1000000000.
Definition Minute : Z := 60 * Second.
Definition Hour : Z := 60 * Minute.

(** [t.Sub(u)] saturates at the ends of [Duration]. *)
Definition Sub (t u : Time) : Z :=
  Z.max minInt64 (Z.min maxInt64 (t - u)).

(** ** [float64] *)

Definition float64 : Type := spec_float.

Definition f64 (z : Z) : float64 := binary_normalize 53 1024 z 0 false.
Definition f64add : float64 -> float64 -> float64 := SFadd 53 1024.
Definition f64div : float64 -> float64 -> float64 := SFdiv 53 1024.

(** [d.Minutes()] and [d.Hours()]; Go's [/] and [%] on integers truncate
    towards zero. *)
Definition Minutes (d : Z) : float64 :=
  let min := Z.quot d Minute in
  let nsec := Z.rem d Minute in
  f64add (f64 min) (f64div (f64 nsec) (f64 (60 * 1000000000))).

Definition Hours (d : Z) : float64 :=
  let hour := Z.quot d Hour in
  let nsec := Z.rem d Hour in
  f64add (f64 hour) (f64div (f64 nsec) (f64 (60 * 60 * 1000000000))).

(** ** Package [fmt] *)

(** Nearest integer to [num / den] for [0 <= num] and [0 < den], ties to
    even: the rounding [strconv] applies to the exact decimal expansion. *)
Definition roundHalfEven (num den : Z) : Z :=
  let q := num / den in
  let r := num mod den in
  match 2 * r ?= den with
  | Lt => q
  | Gt => q + 1
  | Eq => if Z.even q then q else q + 1
  end.

(** The magnitude [m * 2^e] scaled by [10^prec] and rounded to an integer. *)
Definition scaledDigits (prec : nat) (m : positive) (e : Z) : Z :=
  let p := 10 ^ Z.of_nat prec in
  if 0 <=? e then Z.pos m * 2 ^ e * p
  else roundHalfEven (Z.pos m * p) (2 ^ (- e)).

(** [n] as exactly [w] decimal digits, for [0 <= n < 10^w]. *)
Fixpoint padDigits (w : nat) (n : Z) : string :=
  match w with
  | O => EmptyString
  | S w' => padDigits w' (n / 10) +:+ pretty (n mod 10)
  end.

Definition fixedPoint (prec : nat) (t : Z) : string :=
  let p := 10 ^ Z.of_nat prec in
  match prec with
  | O => pretty t
  | S _ => pretty (t / p) +:+ "." +:+ padDigits prec (t mod p)
  end.

Definition signText (s : bool) : string := if s then "-" else "".

(** The verb [%.<prec>f] applied to a [float64]. *)
Definition fmt_f (prec : nat) (x : float64) : string :=
  match x with
  | S754_nan => "NaN"
  | S754_infinity s => if s then "-Inf" else "+Inf"
  | S754_zero s => signText s +:+ fixedPoint prec 0
  | S754_finite s m e => signText s +:+ fixedPoint prec (scaledDigits prec m e)
  end.

(** ** The records of the program *)

Record FileInfo : Type := mkFileInfo {
  Path : string;
  Size : Z;
  Ext : string;
  LastUsed : Time
}.

Record AnalysisResults : Type := mkAnalysisResults {
  TotalFiles : Z;
  TotalSize : Z;
  LargestFiles : list FileInfo;
  FilesByExtension : gmap string Z;
  SizeByExtension : gmap string Z;
  OldestFiles : list FileInfo;
  DirectorySizes : gmap string Z
}.

(** ** What the program takes from its libraries and its environment

    [sort.Slice] and the iteration order of [range] over a map are used
    through their documented behaviour only.  An environment stands for
    one execution: [map_range m] is the order that the one [range] loop
    over [m] takes in it, and another execution may take another, so what
    holds of one printing of a map is proved for every environment and two
    printings of a map are never compared.  [filepath.Join],
    [filepath.Dir] and [Time.AddDate] are used as they are;
    [os_OpenModTime] is the modification time that [os.Open(name)]
    followed by [Stat] reports for a name resolved in the working
    directory, if both calls succeed; [MapToLower] is
    [strings.Map(unicode.ToLower, s)], the path that [strings.ToLower]
    takes on a string that holds a byte outside ASCII. *)
Class GoEnv : Type := {
  sort_Slice : forall {A : Type}, (A -> A -> bool) -> list A -> list A;
  map_range : forall {V : Type}, gmap string V -> list (string * V);
  filepath_Join : string -> string -> string;
  filepath_Dir : string -> string;
  os_OpenModTime : string -> option Time;
  AddDate : Time -> Z -> Z -> Z -> Time;
  MapToLower : string -> string
}.

(** A strict weak ordering, which [sort.Slice] asks of its [less]. *)
Record StrictWeak {A : Type} (less : A -> A -> bool) : Prop := {
  sw_irrefl : forall x, less x x = false;
  sw_trans : forall x y z, less x y = true -> less y z = true -> less x z = true;
  sw_incomp : forall x y z, less x y = false -> less y z = false -> less x z = false
}.

(** No element is less than an earlier one. *)
Definition notAfter {A : Type} (less : A -> A -> bool) (x y : A) : Prop :=
  less y x = false.

(** The documented behaviour: [sort.Slice] permutes the slice into order
    (nothing is said about equal elements), and [range] enumerates each
    entry of the map once, in an order of its own. *)
Class GoEnvSpec (E : GoEnv) : Prop := {
  Slice_perm : forall (A : Type) (less : A -> A -> bool) (l : list A),
      Permutation l (sort_Slice less l);
  Slice_sorted : forall (A : Type) (less : A -> A -> bool) (l : list A),
      StrictWeak less -> Sorted (notAfter less) (sort_Slice less l);
  range_perm : forall (V : Type) (m : gmap string V),
      Permutation (map_range m) (map_to_list m)
}.

(** ** The file tree under the root, as [filepath.WalkDir] sees it *)

Record FileStat : Type := mkFileStat {
  st_size : Z;
  st_modTime : Time
}.

(** A file carries the outcome of [d.Info()], a directory the outcome of
    [os.ReadDir]: the entries read, by name, and the error if there was
    one. *)
#[warnings="-register-all"]
Inductive FsNode : Type :=
| FsFile (name : string) (info : string + FileStat)
| FsDir (name : string) (readErr : option string) (entries : list FsNode).

Definition nodeName (d : FsNode) : string :=
  match d with
  | FsFile name _ => name
  | FsDir name _ _ => name
  end.

Definition IsDir (d : FsNode) : bool :=
  match d with
  | FsFile _ _ => false
  | FsDir _ _ _ => true
  end.

Inductive error : Type :=
| SkipDir
| SkipAll
| Err (msg : string).

(** The arguments of one call of the [fs.WalkDirFunc]: an entry with a nil
    error, or an error with the entry it concerns, if any. *)
Inductive Visit : Type :=
| Entry (d : FsNode)
| Failure (d : option FsNode) (err : string).

Section Walk.
Context {E : GoEnv} {St : Type}.
Variable fn : string -> Visit -> St -> St * option error.

Definition skipDirDone (d : FsNode) (e : error) : option error :=
  match e with
  | SkipDir => if IsDir d then None else Some e
  | _ => Some e
  end.

Fixpoint walkDir (path : string) (d : FsNode) (s : St) {struct d} : St * option error :=
  match fn path (Entry d) s with
  | (s1, Some e) => (s1, skipDirDone d e)
  | (s1, None) =>
      match d with
      | FsFile _ _ => (s1, None)
      | FsDir _ readErr dirs =>
          let '(s2, err) :=
            match readErr with
            | Some e => fn path (Failure (Some d) e) s1
            | None => (s1, None)
            end in
          match err with
          | Some e => (s2, skipDirDone d e)
          | None =>
              (fix walkEntries (ds : list FsNode) (s : St) : St * option error :=
                 match ds with
                 | [] => (s, None)
                 | d1 :: ds' =>
                     match walkDir (filepath_Join path (nodeName d1)) d1 s with
                     | (s', Some SkipDir) => (s', None)
                     | (s', Some e) => (s', Some e)
                     | (s', None) => walkEntries ds' s'
                     end
                 end) dirs s2
          end
      end
  end.

(** [filepath.WalkDir]: [lstat] is the outcome of [os.Lstat(root)]. *)
Definition WalkDir (root : string) (lstat : string + FsNode) (s : St) : St * option error :=
  let '(s', err) :=
    match lstat with
    | inl e => fn root (Failure None e) s
    | inr d => walkDir root d s
    end in
  match err with
  | Some SkipDir | Some SkipAll => (s', None)
  | _ => (s', err)
  end.
End Walk.

(** ** [main]: the collector *)

Record Collector : Type := mkCollector {
  out : list string;
  files : list FileInfo;
  totalSize : Z;
  directorySizes : gmap string Z
}.

Definition emptyCollector : Collector :=
  {| out := []; files := []; totalSize := 0; directorySizes := ∅ |}.

Definition Println (c : Collector) (line : string) : Collector :=
  {| out := out c ++ [line]; files := files c;
     totalSize := totalSize c; directorySizes := directorySizes c |}.

(** [m[k] += v] on a map of [int64] (or [int]) values. *)
Definition addTo (m : gmap string Z) (k : string) (v : Z) : gmap string Z :=
  <[k := wrap64 (default 0 (m !! k) + v)]> m.

Section Program.
Context {E : GoEnv}.

Definition getAccessTime (name : string) : Time :=
  match os_OpenModTime name with
  | None => zeroTime
  | Some t => t
  end.

(** [strings.ToLower]: the library scans the bytes first, and lower-cases
    byte by byte when all of them are ASCII. *)
Definition ToLower (s : string) : string :=
  if allChars isASCII s then lowerASCII s else MapToLower s.

(** The extension under which a path is grouped. *)
Definition extensionOf (path : string) : string :=
  let ext := ToLower (filepath_Ext path) in
  if String.eqb ext "" then "no_extension"%string else ext.

(** The record built for a file that passed the size floor. *)
Definition fileRecord (path name : string) (st : FileStat) : FileInfo :=
  let fileData :=
    {| Path := path; Size := st_size st; Ext := extensionOf path;
       LastUsed := st_modTime st |} in
  let atime := getAccessTime name in
  if negb (IsZero atime)
  then {| Path := Path fileData; Size := Size fileData; Ext := Ext fileData;
          LastUsed := atime |}
  else fileData.

(** The function literal passed to [filepath.WalkDir]. *)
Definition visit (minSize : Z) (path : string) (v : Visit) (c : Collector)
  : Collector * option error :=
  match v with
  | Failure _ err =>
      (Println c ("Error accessing " +:+ path +:+ ": " +:+ err), None)
  | Entry (FsDir _ _ _) => (c, None)
  | Entry (FsFile name (inl err)) =>
      (Println c ("Error getting info for " +:+ path +:+ ": " +:+ err), None)
  | Entry (FsFile name (inr info)) =>
      if st_size info <? minSize then (c, None)
      else
        let fileData := fileRecord path name info in
        ({| out := out c;
            files := files c ++ [fileData];
            totalSize := wrap64 (totalSize c + st_size info);
            directorySizes :=
              addTo (directorySizes c) (filepath_Dir path) (st_size info) |},
         None)
  end.

(** ** [analyzeFiles] *)

Definition bySize (a b : FileInfo) : bool := Size b <? Size a.
Definition byLastUsed (a b : FileInfo) : bool := Before (LastUsed a) (LastUsed b).

Definition groupByExt (fs : list FileInfo) : gmap string Z * gmap string Z :=
  fold_left
    (fun '(filesByExt, sizeByExt) file =>
       (addTo filesByExt (Ext file) 1, addTo sizeByExt (Ext file) (Size file)))
    fs (∅, ∅).

Definition analyzeFiles (fs : list FileInfo) (total : Z)
    (dirSizes : gmap string Z) (daysUnused : Z) : AnalysisResults :=
  let largestFiles := sort_Slice bySize fs in
  let oldestFiles := sort_Slice byLastUsed fs in
  let '(filesByExt, sizeByExt) := groupByExt fs in
  {| TotalFiles := Z.of_nat (length fs);
     TotalSize := total;
     LargestFiles := largestFiles;
     FilesByExtension := filesByExt;
     SizeByExtension := sizeByExt;
     OldestFiles := oldestFiles;
     DirectorySizes := dirSizes |}.
End Program.

(** ** The reporter *)

(** The constant [unit] of [formatSize]. *)
Definition unit_ : Z := 1024.

(** The loop of [formatSize],
    [for n := size / unit; n >= unit; n /= unit { div *= unit; exp++ }],
    unrolled [fuel] times at most. *)
Fixpoint formatSize_loop (fuel : nat) (n div exp : Z) : Z * Z :=
  match fuel with
  | O => (div, exp)
  | S fuel' =>
      if unit_ <=? n
      then formatSize_loop fuel' (Z.quot n unit_) (wrap64 (div * unit_)) (exp + 1)
      else (div, exp)
  end.

(** ["KMGTPE"[exp]], printed with [%c]. *)
Definition unitLetter (exp : Z) : string :=
  match String.get (Z.to_nat exp) "KMGTPE" with
  | Some c => String c EmptyString
  | None => EmptyString
  end.

(** An [int64] holds 63 value bits, so seven rounds of the loop always
    suffice. *)
Definition formatSize (size : Z) : string :=
  if size <? unit_ then pretty size +:+ " B"
  else
    let '(div, exp) := formatSize_loop 7 (Z.quot size unit_) unit_ 0 in
    fmt_f 1 (f64div (f64 size) (f64 div)) +:+ " " +:+ unitLetter exp +:+ "iB".

(** [formatTime], against the clock reading [now].  The report is a matter
    of moments: one reading of [time.Now] stands for all of them. *)
Definition formatTime (now t : Time) : string :=
  if IsZero t then "unknown"
  else
    let diff := Sub now t in
    if diff <? Minute then "just now"
    else if diff <? Hour then fmt_f 0 (Minutes diff) +:+ " minutes ago"
    else if diff <? 24 * Hour then fmt_f 0 (Hours diff) +:+ " hours ago"
    else if diff <? 30 * 24 * Hour
      then fmt_f 0 (f64div (Hours diff) (f64 24)) +:+ " days ago"
    else if diff <? 365 * 24 * Hour
      then fmt_f 0 (f64div (f64div (Hours diff) (f64 24)) (f64 30)) +:+ " months ago"
    else fmt_f 0 (f64div (f64div (Hours diff) (f64 24)) (f64 365)) +:+ " years ago".

(** The line printed for a file in the two ranked sections. *)
Definition fileLine (now : Time) (file : FileInfo) : string :=
  formatSize (Size file) +:+ " - " +:+ Path file
    +:+ " (Last used: " +:+ formatTime now (LastUsed file) +:+ ")".

(** [for i := 0; i < topN && i < len(xs); i++ { print xs[i] }], entered with
    the slice from index [i] on.  The counters of this loop and the next
    stay within the length of the slice, so they do not wrap. *)
Fixpoint topLoop {A : Type} (render : A -> string) (topN i : Z) (xs : list A)
  : list string :=
  match xs with
  | [] => []
  | x :: xs' => if i <? topN then render x :: topLoop render topN (i + 1) xs' else []
  end.

(** The loop over [results.OldestFiles]: the lines printed and the final
    value of [printed]. *)
Fixpoint unusedLoop (now cutoff : Time) (topN printed : Z) (xs : list FileInfo)
  : list string * Z :=
  match xs with
  | [] => ([], printed)
  | file :: xs' =>
      if Before (LastUsed file) cutoff then
        let printed := printed + 1 in
        if topN <=? printed then ([fileLine now file], printed)
        else
          let '(ls, p) := unusedLoop now cutoff topN printed xs' in
          (fileLine now file :: ls, p)
      else unusedLoop now cutoff topN printed xs'
  end.

Definition noneFound : string :=
  "No files found that haven't been used in this time period.".

Section Report.
Context {E : GoEnv}.

(** [printSortedMap]: the entries in the order of [range], sorted by
    [less] on the values, the first [topN] printed. *)
Definition sortedEntries {V : Type} (m : gmap string V) (less : V -> V -> bool)
  : list (string * V) :=
  sort_Slice (fun a b => less (snd a) (snd b)) (map_range m).

Definition entryLine {V : Type} (format : V -> string) (kv : string * V) : string :=
  format (snd kv) +:+ " - " +:+ fst kv.

Definition printSortedMap {V : Type} (m : gmap string V) (topN : Z)
    (less : V -> V -> bool) (format : V -> string) : list string :=
  topLoop (entryLine format) topN 0 (sortedEntries m less).

Definition greater (a b : Z) : bool := b <? a.
Definition countText (v : Z) : string := pretty v +:+ " files".

Definition generalSection (results : AnalysisResults) : list string :=
  [ ""; "=== General Information ===";
    "Total files analyzed: " +:+ pretty (TotalFiles results);
    "Total size analyzed: " +:+ formatSize (TotalSize results) ]%string.

Definition largestSection (now : Time) (results : AnalysisResults) (topN : Z)
  : list string :=
  topLoop (fileLine now) topN 0 (LargestFiles results).

Definition cutoffOf (now : Time) (daysUnused : Z) : Time :=
  AddDate now 0 0 (wrap64 (- daysUnused)).

Definition unusedSection (now : Time) (results : AnalysisResults)
    (topN daysUnused : Z) : list string :=
  let '(ls, printed) :=
    unusedLoop now (cutoffOf now daysUnused) topN 0 (OldestFiles results) in
  if printed =? 0 then ls ++ [noneFound] else ls.

Definition countSection (results : AnalysisResults) (topN : Z) : list string :=
  printSortedMap (FilesByExtension results) topN greater countText.

Definition sizeSection (results : AnalysisResults) (topN : Z) : list string :=
  printSortedMap (SizeByExtension results) topN greater formatSize.

Definition directorySection (results : AnalysisResults) (topN : Z) : list string :=
  printSortedMap (DirectorySizes results) topN greater formatSize.

Definition printAnalysis (now : Time) (results : AnalysisResults)
    (topN daysUnused : Z) : list string :=
  generalSection results
  ++ [""; "=== Top " +:+ pretty topN +:+ " Largest Files ==="]%string
  ++ largestSection now results topN
  ++ [""; "=== Top " +:+ pretty topN +:+ " Oldest/Unused Files (not accessed in "
            +:+ pretty daysUnused +:+ " days) ==="]%string
  ++ unusedSection now results topN daysUnused
  ++ [""; "=== File Extensions by Count ==="]%string
  ++ countSection results topN
  ++ [""; "=== File Extensions by Size ==="]%string
  ++ sizeSection results topN
  ++ [""; "=== Top " +:+ pretty topN +:+ " Largest Directories ==="]%string
  ++ directorySection results topN.

(** ** [main] *)

Record Flags : Type := mkFlags {
  dir : string;
  top : Z;
  minSize : Z;
  daysUnused : Z
}.

(** How a run ends: [os.Exit(1)] on an empty [-dir], the return after a
    failed walk, the return when no file was kept, or the end of [main]
    after the report. *)
Inductive Ending : Type :=
| Exit1
| WalkFailed
| NothingFound
| Reported (results : AnalysisResults).

Definition banner (fl : Flags) : list string :=
  [ "Analyzing files in: " +:+ dir fl;
    "Showing top " +:+ pretty (top fl) +:+ " results";
    "Considering files larger than " +:+ formatSize (minSize fl) +:+ " as significant";
    "Considering files unused if not accessed in " +:+ pretty (daysUnused fl) +:+ " days";
    "" ]%string.

Definition errorText (e : error) : string :=
  match e with
  | SkipDir => "skip this directory"
  | SkipAll => "skip everything and stop the walk"
  | Err msg => msg
  end.

(** The walk of [main], started from an empty collector. *)
Definition scan (fl : Flags) (lstat : string + FsNode) : Collector * option error :=
  WalkDir (visit (minSize fl)) (dir fl) lstat emptyCollector.

(** The lines written to standard output and the way the run ends
    ([flag.Usage] writes to standard error). *)
Definition main (fl : Flags) (lstat : string + FsNode) (now : Time)
  : list string * Ending :=
  if String.eqb (dir fl) "" then (["Error: directory path cannot be empty"%string], Exit1)
  else
    let '(c, err) := scan fl lstat in
    match err with
    | Some e =>
        (banner fl ++ out c ++ ["Error walking directory: " +:+ errorText e], WalkFailed)
    | None =>
        if (length (files c) =? 0)%nat
        then (banner fl ++ out c ++ ["No files found matching the criteria."%string],
              NothingFound)
        else
          let results :=
            analyzeFiles (files c) (totalSize c) (directorySizes c) (daysUnused fl) in
          (banner fl ++ out c ++ printAnalysis now results (top fl) (daysUnused fl),
           Reported results)
    end.
End Report.

(** ** Package [sort] of Go 1.19 and later: [sort.Slice]

    The library is no part of the repository; this is its pattern-defeating
    quicksort, function by function, on a list for the slice.  Loops whose
    bound is not the loop variable itself run on [fuel] and give [None] when
    it runs out. *)
Module GoSort.
Section Sort.
Context {A : Type}.
Variable less : A -> A -> bool.

Definition at_ (data : list A) (i : Z) : option A :=
  if i <? 0 then None else data !! Z.to_nat i.

(** [data.Less(i, j)] and [data.Swap(i, j)].  Outside the slice, where Go
    panics, nothing is less and nothing is swapped. *)
Definition Less (data : list A) (i j : Z) : bool :=
  match at_ data i, at_ data j with
  | Some x, Some y => less x y
  | _, _ => false
  end.

Definition Swap (data : list A) (i j : Z) : list A :=
  match at_ data i, at_ data j with
  | Some x, Some y => <[Z.to_nat i := y]> (<[Z.to_nat j := x]> data)
  | _, _ => data
  end.

(** [for j := i; j > a && data.Less(j, j-1); j-- { data.Swap(j, j-1) }],
    with [k = j - a]. *)
Fixpoint sinkLoop (data : list A) (a : Z) (k : nat) : list A :=
  match k with
  | O => data
  | S k' =>
      let j := a + Z.of_nat k in
      if Less data j (j - 1) then sinkLoop (Swap data j (j - 1)) a k' else data
  end.

(** The integers [lo], [lo + 1], ..., [hi - 1]. *)
Definition upto (lo hi : Z) : list Z :=
  map (fun k => lo + Z.of_nat k) (seq 0 (Z.to_nat (hi - lo))).

Definition insertionSort_func (data : list A) (a b : Z) : list A :=
  fold_left (fun data i => sinkLoop data a (Z.to_nat (i - a))) (upto (a + 1) b) data.

Fixpoint siftDown_loop (fuel : nat) (data : list A) (root hi first : Z)
  : option (list A) :=
  match fuel with
  | O => None
  | S fuel' =>
      let child := 2 * root + 1 in
      if hi <=? child then Some data
      else
        let child :=
          if (child + 1 <? hi) && Less data (first + child) (first + child + 1)
          then child + 1 else child in
        if negb (Less data (first + root) (first + child)) then Some data
        else siftDown_loop fuel' (Swap data (first + root) (first + child)) child hi first
  end.

Definition siftDown_func (data : list A) (lo hi first : Z) : option (list A) :=
  siftDown_loop (S (Z.to_nat hi)) data lo hi first.

Definition heapSort_func (data : list A) (a b : Z) : option (list A) :=
  let first := a in
  let lo := 0 in
  let hi := b - a in
  data ← foldr (fun i acc => data ← acc; siftDown_func data i hi first)
            (Some data) (upto 0 (Z.quot (hi - 1) 2 + 1));
  foldr (fun i acc => data ← acc; siftDown_func (Swap data first (first + i)) lo i first)
        (Some data) (upto 0 hi).

(** [for i <= j && data.Less(i, a) { i++ }], with [k = j + 1 - i]; and its
    mirror image from the right, which takes the test as a parameter. *)
Fixpoint scanUp (test : Z -> bool) (k : nat) (i : Z) : Z :=
  match k with
  | O => i
  | S k' => if test i then scanUp test k' (i + 1) else i
  end.

Fixpoint scanDown (test : Z -> bool) (k : nat) (j : Z) : Z :=
  match k with
  | O => j
  | S k' => if test j then scanDown test k' (j - 1) else j
  end.

Fixpoint partition_loop (fuel : nat) (data : list A) (a i j : Z)
  : option (list A * Z) :=
  match fuel with
  | O => None
  | S fuel' =>
      let i := scanUp (fun i => Less data i a) (Z.to_nat (j + 1 - i)) i in
      let j := scanDown (fun j => negb (Less data j a)) (Z.to_nat (j + 1 - i)) j in
      if j <? i then Some (data, j)
      else partition_loop fuel' (Swap data i j) a (i + 1) (j - 1)
  end.

Definition partition_func (data : list A) (a b pivot : Z)
  : option (list A * Z * bool) :=
  let data := Swap data a pivot in
  let i := a + 1 in
  let j := b - 1 in
  let i := scanUp (fun i => Less data i a) (Z.to_nat (j + 1 - i)) i in
  let j := scanDown (fun j => negb (Less data j a)) (Z.to_nat (j + 1 - i)) j in
  if j <? i then Some (Swap data j a, j, true)
  else
    let data := Swap data i j in
    '(data, j) ← partition_loop (S (Z.to_nat (b - a))) data a (i + 1) (j - 1);
    Some (Swap data j a, j, false).

Fixpoint partitionEqual_loop (fuel : nat) (data : list A) (a i j : Z)
  : option (list A * Z) :=
  match fuel with
  | O => None
  | S fuel' =>
      let i := scanUp (fun i => negb (Less data a i)) (Z.to_nat (j + 1 - i)) i in
      let j := scanDown (fun j => Less data a j) (Z.to_nat (j + 1 - i)) j in
      if j <? i then Some (data, i)
      else partitionEqual_loop fuel' (Swap data i j) a (i + 1) (j - 1)
  end.

Definition partitionEqual_func (data : list A) (a b pivot : Z)
  : option (list A * Z) :=
  let data := Swap data a pivot in
  partitionEqual_loop (S (Z.to_nat (b - a))) data a (a + 1) (b - 1).

(** [for j := i - 1; j >= 1; j-- { if !Less(j, j-1) { break }; Swap(j, j-1) }],
    with [k = j]. *)
Fixpoint shiftLeft (data : list A) (k : nat) : list A :=
  match k with
  | O => data
  | S k' =>
      let j := Z.of_nat k in
      if negb (Less data j (j - 1)) then data
      else shiftLeft (Swap data j (j - 1)) k'
  end.

(** [for j := i + 1; j < b; j++ { if !Less(j, j-1) { break }; Swap(j, j-1) }],
    with [k = b - j]. *)
Fixpoint shiftRight (data : list A) (b : Z) (k : nat) : list A :=
  match k with
  | O => data
  | S k' =>
      let j := b - Z.of_nat k in
      if negb (Less data j (j - 1)) then data
      else shiftRight (Swap data j (j - 1)) b k'
  end.

(** [for j := 0; j < maxSteps; j++], with [steps = maxSteps - j]. *)
Fixpoint partialInsertionSort_loop (steps : nat) (data : list A) (a b i : Z)
  : list A * bool :=
  match steps with
  | O => (data, false)
  | S steps' =>
      let i := scanUp (fun i => negb (Less data i (i - 1))) (Z.to_nat (b - i)) i in
      if i =? b then (data, true)
      else if b - a <? 50 then (data, false)
      else
        let data := Swap data i (i - 1) in
        let data := if 2 <=? i - a then shiftLeft data (Z.to_nat (i - 1)) else data in
        let data := if 2 <=? b - i then shiftRight data b (Z.to_nat (b - (i + 1))) else data in
        partialInsertionSort_loop steps' data a b i
  end.

Definition partialInsertionSort_func (data : list A) (a b : Z) : list A * bool :=
  partialInsertionSort_loop 5 data a b (a + 1).

(** [xorshift.Next] on a [uint64]. *)
Definition xorshiftNext (r : Z) : Z :=
  let r := Z.lxor r (Z.shiftl r 13 mod 2 ^ 64) in
  let r := Z.lxor r (Z.shiftr r 7) in
  Z.lxor r (Z.shiftl r 17 mod 2 ^ 64).

(** [bits.Len] of a non-negative integer. *)
Definition bitsLen (n : Z) : Z := if n <=? 0 then 0 else Z.log2 n + 1.

Definition nextPowerOfTwo (length : Z) : Z := Z.shiftl 1 (bitsLen length).

Definition breakPatterns_func (data : list A) (a b : Z) : list A :=
  let length := b - a in
  if 8 <=? length then
    let modulus := nextPowerOfTwo length in
    let idx := a + Z.quot length 4 * 2 - 1 in
    snd (fold_left
           (fun '(random, data) i =>
              let random := xorshiftNext random in
              let other := Z.land random (modulus - 1) in
              let other := if length <=? other then other - length else other in
              (random, Swap data (idx + i) (a + other)))
           (upto 0 3) (length, data))
  else data.

Inductive sortedHint : Type := unknownHint | increasingHint | decreasingHint.

(** [order2_func], [median_func] and [medianAdjacent_func] thread the
    counter [swaps]. *)
Definition order2_func (data : list A) (a b swaps : Z) : Z * Z * Z :=
  if Less data b a then (b, a, swaps + 1) else (a, b, swaps).

Definition median_func (data : list A) (a b c swaps : Z) : Z * Z :=
  let '(a, b, swaps) := order2_func data a b swaps in
  let '(b, c, swaps) := order2_func data b c swaps in
  let '(a, b, swaps) := order2_func data a b swaps in
  (b, swaps).

Definition medianAdjacent_func (data : list A) (a swaps : Z) : Z * Z :=
  median_func data (a - 1) a (a + 1) swaps.

Definition choosePivot_func (data : list A) (a b : Z) : Z * sortedHint :=
  let l := b - a in
  let swaps := 0 in
  let i := a + Z.quot l 4 * 1 in
  let j := a + Z.quot l 4 * 2 in
  let k := a + Z.quot l 4 * 3 in
  let '(j, swaps) :=
    if 8 <=? l then
      let '(i, j, k, swaps) :=
        if 50 <=? l then
          let '(i, swaps) := medianAdjacent_func data i swaps in
          let '(j, swaps) := medianAdjacent_func data j swaps in
          let '(k, swaps) := medianAdjacent_func data k swaps in
          (i, j, k, swaps)
        else (i, j, k, swaps) in
      median_func data i j k swaps
    else (j, swaps) in
  if swaps =? 0 then (j, increasingHint)
  else if swaps =? 4 * 3 then (j, decreasingHint)
  else (j, unknownHint).

(** [for i < j { data.Swap(i, j); i++; j-- }], with [k] pairs left. *)
Fixpoint reverseRange_loop (k : nat) (data : list A) (i j : Z) : list A :=
  match k with
  | O => data
  | S k' => if i <? j then reverseRange_loop k' (Swap data i j) (i + 1) (j - 1) else data
  end.

Definition reverseRange_func (data : list A) (a b : Z) : list A :=
  reverseRange_loop (Z.to_nat (b - a)) data a (b - 1).

Definition isIncreasing (h : sortedHint) : bool :=
  match h with increasingHint => true | _ => false end.

(** The loop of [pdqsort_func]; a recursive call and a further round of
    the loop both take one unit of [fuel]. *)
Fixpoint pdqsort_loop (fuel : nat) (data : list A) (a b limit : Z)
    (wasBalanced wasPartitioned : bool) : option (list A) :=
  match fuel with
  | O => None
  | S fuel' =>
      let length := b - a in
      if length <=? 12 then Some (insertionSort_func data a b)
      else if limit =? 0 then heapSort_func data a b
      else
        let '(data, limit) :=
          if negb wasBalanced then (breakPatterns_func data a b, limit - 1)
          else (data, limit) in
        let '(pivot, hint) := choosePivot_func data a b in
        let '(data, pivot, hint) :=
          match hint with
          | decreasingHint =>
              (reverseRange_func data a b, (b - 1) - (pivot - a), increasingHint)
          | _ => (data, pivot, hint)
          end in
        let '(data, done) :=
          if wasBalanced && wasPartitioned && isIncreasing hint
          then partialInsertionSort_func data a b
          else (data, false) in
        if done then Some data
        else if (0 <? a) && negb (Less data (a - 1) pivot) then
          '(data, mid) ← partitionEqual_func data a b pivot;
          pdqsort_loop fuel' data mid b limit wasBalanced wasPartitioned
        else
          '(data, mid, alreadyPartitioned) ← partition_func data a b pivot;
          let leftLen := mid - a in
          let rightLen := b - mid in
          let balanceThreshold := Z.quot length 8 in
          if leftLen <? rightLen then
            data ← pdqsort_loop fuel' data a mid limit true true;
            pdqsort_loop fuel' data (mid + 1) b limit
              (balanceThreshold <=? leftLen) alreadyPartitioned
          else
            data ← pdqsort_loop fuel' data (mid + 1) b limit true true;
            pdqsort_loop fuel' data a mid limit
              (balanceThreshold <=? rightLen) alreadyPartitioned
  end.

Definition pdqsort_func (data : list A) (a b limit : Z) : option (list A) :=
  pdqsort_loop (S (Z.to_nat (b - a))) data a b limit true true.

(** [sort.Slice(x, less)]. *)
Definition SliceRun (x : list A) : option (list A) :=
  let length := Z.of_nat (List.length x) in
  pdqsort_func x 0 length (bitsLen length).

Definition Slice (x : list A) : list A := default x (SliceRun x).
End Sort.
End GoSort.


(** ** Two environments

    [goEnv] runs the library's own [sort.Slice] and ranges over a map in
    ascending key order, one of the orders [range] may take.  [refEnv] sorts
    by stable insertion, which is what the library itself does on slices of
    at most twelve elements, and ranges in the order of [map_to_list].  Both
    run the library's [filepath.Clean] in [filepath.Join] and
    [filepath.Dir], and shift a date as [Time.AddDate] does in a zone
    without clock changes.  No name resolves in the working directory, and
    the names of the examples are ASCII throughout, so that the path of
    [strings.ToLower] for other strings is not taken; it is left as the
    identity. *)

(** Insertion into a list in order, ahead of the first element that is not
    less: the element inserted is the earlier one in the slice. *)
Fixpoint insertInto {A : Type} (less : A -> A -> bool) (x : A) (l : list A) : list A :=
  match l with
  | [] => [x]
  | y :: l' => if less y x then y :: insertInto less x l' else x :: l
  end.

Definition stableSort {A : Type} (less : A -> A -> bool) (l : list A) : list A :=
  foldr (insertInto less) [] l.

Definition keyBefore {V : Type} (a b : string * V) : bool :=
  match String.compare (fst a) (fst b) with
  | Lt => true
  | _ => false
  end.

(** [filepath.Clean] on a Unix system.  The library reads the path byte by
    byte and writes into a buffer: [buf] is the buffer with its last byte
    first, [dotdot] the length below which a [..] element may not cut the
    buffer back, and [copying] says that the bytes of an element are being
    copied. *)
Definition endsElement (rest : list ascii) : bool :=
  match rest with
  | [] => true
  | c :: _ => IsPathSeparator c
  end.

(** [for out.w > dotdot && !os.IsPathSeparator(out.index(out.w)) { out.w-- }],
    where [removed] is the byte at [out.w]. *)
Fixpoint backtrack (dotdot : nat) (removed : ascii) (buf : list ascii) : list ascii :=
  match buf with
  | [] => []
  | c :: buf' =>
      if (dotdot <? length buf)%nat && negb (IsPathSeparator removed)
      then backtrack dotdot c buf'
      else buf
  end.

Fixpoint Clean_loop (rooted : bool) (path : list ascii) (copying : bool)
    (dotdot : nat) (buf : list ascii) {struct path} : list ascii :=
  match path with
  | [] => buf
  | c :: rest =>
      if IsPathSeparator c then Clean_loop rooted rest false dotdot buf
      else if copying then Clean_loop rooted rest true dotdot (c :: buf)
      else if isDot c && endsElement rest then Clean_loop rooted rest false dotdot buf
      else
        match rest with
        | c2 :: rest2 =>
            if isDot c && isDot c2 && endsElement rest2 then
              if (dotdot <? length buf)%nat then
                match buf with
                | last :: buf' =>
                    Clean_loop rooted rest2 false dotdot (backtrack dotdot last buf')
                | [] => Clean_loop rooted rest2 false dotdot buf
                end
              else if negb rooted then
                let buf := if (0 <? length buf)%nat then "/"%char :: buf else buf in
                let buf := "."%char :: "."%char :: buf in
                Clean_loop rooted rest2 false (length buf) buf
              else Clean_loop rooted rest2 false dotdot buf
            else
              let slash := (rooted && negb (length buf =? 1)%nat)
                           || (negb rooted && negb (length buf =? 0)%nat) in
              let buf := if slash then "/"%char :: buf else buf in
              Clean_loop rooted rest true dotdot (c :: buf)
        | [] =>
            let slash := (rooted && negb (length buf =? 1)%nat)
                         || (negb rooted && negb (length buf =? 0)%nat) in
            let buf := if slash then "/"%char :: buf else buf in
            Clean_loop rooted rest true dotdot (c :: buf)
        end
  end.

Definition Clean (path : string) : string :=
  match list_ascii_of_string path with
  | [] => "."
  | c :: rest =>
      let rooted := IsPathSeparator c in
      let buf :=
        if rooted then Clean_loop true rest false 1 ["/"%char]
        else Clean_loop false (c :: rest) false 0 [] in
      match buf with
      | [] => "."
      | _ :: _ => string_of_list_ascii (rev buf)
      end
  end.

(** [filepath.Join] of two elements: the elements from the first one that
    is not empty, joined by a separator and cleaned. *)
Definition joinPath (path name : string) : string :=
  if String.eqb path "" then
    if String.eqb name "" then "" else Clean name
  else Clean (path +:+ "/" +:+ name).

(** The loop of [filepath.Dir] that finds the last separator, with [n] for
    [i + 1]: the path up to that separator and with it. *)
Fixpoint dirLoop (path : string) (n : nat) : string :=
  match n with
  | O => ""
  | S i =>
      match String.get i path with
      | Some c =>
          if IsPathSeparator c then String.substring 0 (S i) path else dirLoop path i
      | None => ""
      end
  end.

Definition dirPath (path : string) : string :=
  Clean (dirLoop path (String.length path)).

(** [t.AddDate(0, 0, days)] in a zone without clock changes.  [Date]
    rebuilds the instant from the calendar date of [t] with [days] added to
    the day of the month; it counts the days, and then the seconds, in 64
    bits, so the count of seconds wraps around.  The nanoseconds within the
    second are kept. *)
Definition addDays (t : Time) (years months days : Z) : Time :=
  wrap64 (t / 10 ^ 9 + days * 86400) * 10 ^ 9 + t mod 10 ^ 9.

(** A zone without clock changes: [AddDate] by whole days is [addDays]. *)
Class FixedZone (E : GoEnv) : Prop := {
  AddDate_days : forall (t : Time) (days : Z), AddDate t 0 0 days = addDays t 0 0 days
}.

Definition goEnv : GoEnv :=
  {| sort_Slice := fun A less l => GoSort.Slice less l;
     map_range := fun V m => stableSort keyBefore (map_to_list m);
     filepath_Join := joinPath;
     filepath_Dir := dirPath;
     os_OpenModTime := fun _ => None;
     AddDate := addDays;
     MapToLower := fun s => s |}.

Definition refEnv : GoEnv :=
  {| sort_Slice := fun A less l => stableSort less l;
     map_range := fun V m => map_to_list m;
     filepath_Join := joinPath;
     filepath_Dir := dirPath;
     os_OpenModTime := fun _ => None;
     AddDate := addDays;
     MapToLower := fun s => s |}.

(** An environment that sorts the reversed slice by stable insertion: it
    is in order as well, with equal elements the other way round.  It
    ranges over a map in ascending key order. *)
Definition revEnv : GoEnv :=
  {| sort_Slice := fun A less l => stableSort less (rev l);
     map_range := fun V m => stableSort keyBefore (map_to_list m);
     filepath_Join := joinPath;
     filepath_Dir := dirPath;
     os_OpenModTime := fun _ => None;
     AddDate := addDays;
     MapToLower := fun s => s |}.

(** ** Vocabulary of the statements *)

Definition plainByte (c : ascii) : bool := negb (IsPathSeparator c) && negb (isDot c).

(** A directory prefix: empty, or ending in a separator. *)
Definition dirPrefix (d : string) : Prop :=
  d = EmptyString \/ exists d', d = d' +:+ "/".

(** The sum of the values of a map. *)
Definition sumValues (m : gmap string Z) : Z :=
  foldr Z.add 0 (map snd (map_to_list m)).

Definition sumSizes (fs : list FileInfo) : Z := foldr Z.add 0 (map Size fs).


Section Calls.
Context {E : GoEnv}.

(** The calls of the walk function that [walkDir] makes, in order, when
    none of them reports an error. *)
Fixpoint calls (path : string) (d : FsNode) {struct d} : list (string * Visit) :=
  (path, Entry d) ::
  match d with
  | FsFile _ _ => []
  | FsDir _ readErr dirs =>
      match readErr with
      | Some e => [(path, Failure (Some d) e)]
      | None => []
      end
      ++ (fix callsEntries (ds : list FsNode) : list (string * Visit) :=
            match ds with
            | [] => []
            | d1 :: ds' => calls (filepath_Join path (nodeName d1)) d1 ++ callsEntries ds'
            end) dirs
  end.

Definition rootCalls (root : string) (lstat : string + FsNode) : list (string * Visit) :=
  match lstat with
  | inl e => [(root, Failure None e)]
  | inr d => calls root d
  end.

(** The collector after a sequence of calls. *)
Definition collect (minSize : Z) (cs : list (string * Visit)) (c : Collector) : Collector :=
  fold_left (fun c pv => fst (visit minSize (fst pv) (snd pv) c)) cs c.

(** The record that a call adds to [files], if it adds one. *)
Definition kept (minSize : Z) (pv : string * Visit) : option FileInfo :=
  match snd pv with
  | Entry (FsFile name (inr info)) =>
      if st_size info <? minSize then None else Some (fileRecord (fst pv) name info)
  | _ => None
  end.

(** A call for a file whose size is below the floor. *)
Definition belowFloor (minSize : Z) (pv : string * Visit) : bool :=
  match snd pv with
  | Entry (FsFile name (inr info)) => st_size info <? minSize
  | _ => false
  end.
End Calls.

(** An induction principle for trees that reaches the entries of a
    directory. *)
Fixpoint FsNode_tree_ind (P : FsNode -> Prop)
    (Hfile : forall name info, P (FsFile name info))
    (Hdir : forall name readErr dirs, Forall P dirs -> P (FsDir name readErr dirs))
    (d : FsNode) {struct d} : P d :=
  match d with
  | FsFile name info => Hfile name info
  | FsDir name readErr dirs =>
      Hdir name readErr dirs
        ((fix all (ds : list FsNode) : Forall P ds :=
            match ds with
            | [] => @List.Forall_nil FsNode P
            | d1 :: ds' =>
                @List.Forall_cons FsNode P d1 ds' (FsNode_tree_ind P Hfile Hdir d1) (all ds')
            end) dirs)
  end.

(** A map of running totals: [m[key f] += val f] for each record in
    turn. *)
Definition tally (key : FileInfo -> string) (val : FileInfo -> Z)
    (fs : list FileInfo) (m : gmap string Z) : gmap string Z :=
  fold_left (fun m f => addTo m (key f) (val f)) fs m.

(** ** Sample scans *)

(** Two text files in the root, with extensions that differ in case. *)
Definition sampleTree : FsNode :=
  FsDir "." None
    [ FsFile "a.TXT" (inr {| st_size := 100; st_modTime := 5 * Hour |});
      FsFile "b.txt" (inr {| st_size := 200; st_modTime := 6 * Hour |}) ].

Definition sampleFlags : Flags :=
  {| dir := "."; top := 10; minSize := 0; daysUnused := 30 |}.

Definition sampleRecord : FileInfo :=
  {| Path := "a.TXT"; Size := 100; Ext := ".txt"; LastUsed := 5 * Hour |}.

(** Two sparse files of four exbibytes each. *)
Definition hugeTree : FsNode :=
  FsDir "." None
    [ FsFile "x.a" (inr {| st_size := 2 ^ 62; st_modTime := 5 * Hour |});
      FsFile "y.b" (inr {| st_size := 2 ^ 62; st_modTime := 6 * Hour |}) ].

(** A file last used on day 60 and one last used on day 90. *)
Definition twoAges : list FileInfo :=
  [ {| Path := "new.log"; Size := 1000000; Ext := ".log"; LastUsed := 90 * 24 * Hour |};
    {| Path := "old.log"; Size := 2000000; Ext := ".log"; LastUsed := 60 * 24 * Hour |} ].

(** The stale records of a ranking, in its order. *)
Definition staleFiles (cutoff : Time) (fs : list FileInfo) : list FileInfo :=
  List.filter (fun f => Before (LastUsed f) cutoff) fs.

(** Thirteen files, eight of them of one size, in the order of the walk. *)
Definition rankedSizes : list Z := [5; 5; 3; 5; 7; 5; 1; 5; 9; 5; 2; 5; 5].

Definition numbered (i : nat) (size : Z) : FileInfo :=
  {| Path := "f" +:+ pretty i; Size := size; Ext := ".bin";
     LastUsed := Z.of_nat i * Hour |}.

Definition thirteenFiles : list FileInfo := imap numbered rankedSizes.

(** Thirteen extensions with the same counts, by name. *)
Definition thirteenCounts : gmap string Z :=
  list_to_map
    [ (".a", 5); (".b", 5); (".c", 3); (".d", 5); (".e", 7); (".f", 5); (".g", 1);
      (".h", 5); (".i", 9); (".j", 5); (".k", 2); (".l", 5); (".m", 5) ]%string.

Definition twoCounts : gmap string Z :=
  list_to_map [(".a", 5); (".b", 5)]%string.

(** The entries of a ranking that hold the value [v], in its order. *)
Definition withValue (v : Z) (l : list (string * Z)) : list string :=
  map fst (List.filter (fun kv => snd kv =? v) l).

Definition withSize (v : Z) (l : list FileInfo) : list string :=
  map Path (List.filter (fun f => Size f =? v) l).

(** [N] is an integer nearest to the value [m * 2^e] scaled by [10^prec]. *)
Definition nearestTo (prec : nat) (N : Z) (m : positive) (e : Z) : Prop :=
  if 0 <=? e then N = Z.pos m * 2 ^ e * 10 ^ Z.of_nat prec
  else 2 * Z.abs (N * 2 ^ (- e) - Z.pos m * 10 ^ Z.of_nat prec) <= 2 ^ (- e).

(** The text is the integer nearest to the positive [float64] value [x],
    followed by [suffix]. *)
Definition rendersRounded (x : float64) (suffix text : string) : Prop :=
  exists (N : Z) (m : positive) (e : Z),
    x = S754_finite false m e /\ nearestTo 0 N m e /\ 0 <= N
    /\ text = pretty N +:+ suffix.

(** The letter of the unit [1024^k] bytes. *)
Definition unitOf (k : Z) : string :=
  match k with
  | 1 => "K" | 2 => "M" | 3 => "G" | 4 => "T" | 5 => "P" | 6 => "E"
  | _ => ""
  end.

(** A positive [float64] in normal form with its exponent in a range. *)
Definition normal64 (lo hi : Z) (x : float64) : Prop :=
  exists m e, x = S754_finite false m e
              /\ Z.pos (digits2_pos m) = 53 /\ lo <= e <= hi.

(** ** Vocabulary of the further properties *)

(** The line that a call of the walk function prints, if it prints one. *)
Definition diagnostic (pv : string * Visit) : option string :=
  match snd pv with
  | Failure _ err => Some ("Error accessing " +:+ fst pv +:+ ": " +:+ err)
  | Entry (FsFile _ (inl err)) =>
      Some ("Error getting info for " +:+ fst pv +:+ ": " +:+ err)
  | Entry _ => None
  end.

(** The records that a tally files under the key [k], in their order. *)
Definition withKey (key : FileInfo -> string) (k : string) (fs : list FileInfo)
  : list FileInfo :=
  List.filter (fun f => String.eqb (key f) k) fs.

(** The reference environment with a working directory in which the name
    "a.TXT" can be opened, and shows a modification time of nine hours. *)
Definition probeEnv : GoEnv :=
  {| sort_Slice := fun A less l => stableSort less l;
     map_range := fun V m => map_to_list m;
     filepath_Join := joinPath;
     filepath_Dir := dirPath;
     os_OpenModTime :=
       fun name => if String.eqb name "a.TXT" then Some (9 * Hour) else None;
     AddDate := addDays;
     MapToLower := fun s => s |}.

Definition probedRecord : FileInfo :=
  {| Path := "a.TXT"; Size := 100; Ext := ".txt"; LastUsed := 9 * Hour |}.

(** A root with a file that cannot be examined, a directory that cannot be
    listed, and a file in a directory below. *)
Definition brokenTree : FsNode :=
  FsDir "." None
    [ FsFile "gone.txt" (inl "lstat gone.txt: no such file or directory"%string);
      FsDir "locked" (Some "open locked: permission denied"%string) [];
      FsDir "sub" None
        [ FsFile "kept.DAT" (inr {| st_size := 4096; st_modTime := 7 * Hour |}) ] ].

(** The byte that ends a line. *)
Definition isNewline (c : ascii) : bool := Ascii.eqb c "010"%char.

(** A text without a newline byte: printed by itself it fills one line. *)
Definition oneLine (s : string) : bool := allChars (fun c => negb (isNewline c)) s.

(** The number of lines that a list of printed texts fills, each text
    being followed by a newline: one for each text and one more for each
    newline byte within. *)
Fixpoint newlines (s : string) : nat :=
  match s with
  | EmptyString => O
  | String c s' => ((if isNewline c then 1 else 0) + newlines s')%nat
  end.

Definition lineCount (texts : list string) : nat :=
  foldr (fun s n => S (newlines s) + n)%nat O texts.

(** A summary of one file, as a scan of a root that holds "f0" builds it. *)
Definition oneFileSummary : AnalysisResults :=
  {| TotalFiles := 1; TotalSize := 5;
     LargestFiles := [numbered 0 5];
     FilesByExtension := {[ ".bin"%string := 1 ]};
     SizeByExtension := {[ ".bin"%string := 5 ]};
     OldestFiles := [numbered 0 5];
     DirectorySizes := {[ "."%string := 5 ]} |}.

(** * Properties *)

(** ** Strings *)

Lemma app_cons (c : ascii) (s1 s2 : string) :
  String c s1 +:+ s2 = String c (s1 +:+ s2).
Proof. reflexivity. Qed.

Lemma app_nil (s : string) : "" +:+ s = s.
Proof. reflexivity. Qed.

Lemma string_length_app (s1 s2 : string) :
  String.length (s1 +:+ s2) = (String.length s1 + String.length s2)%nat.
Proof. induction s1 as [|c s1 IH]; [reflexivity |]. rewrite app_cons. simpl. now rewrite IH. Qed.

Lemma string_app_assoc (s1 s2 s3 : string) :
  (s1 +:+ s2) +:+ s3 = s1 +:+ (s2 +:+ s3).
Proof. induction s1 as [|c s1 IH]; [reflexivity |]. rewrite !app_cons. now f_equal. Qed.

Lemma get_app_at (p : string) (c : ascii) (b : string) :
  String.get (String.length p) (p +:+ String c b) = Some c.
Proof. induction p as [|a p IH]; [reflexivity |]. rewrite app_cons. exact IH. Qed.

Lemma substring_all (b : string) : String.substring 0 (String.length b) b = b.
Proof. induction b as [|c b IH]; simpl; [reflexivity | now rewrite IH]. Qed.

Lemma substring_app_at (p b : string) :
  String.substring (String.length p) (String.length b) (p +:+ b) = b.
Proof. induction p as [|a p IH]; [apply substring_all |]. rewrite app_cons. exact IH. Qed.

(** ** [filepath.Ext] *)

(** The loop walks over a tail without dots and separators. *)
Lemma Ext_loop_skip (b p : string) :
  allChars plainByte b = true ->
  Ext_loop (p +:+ b) (String.length p + String.length b) =
  Ext_loop (p +:+ b) (String.length p).
Proof.
  revert p. induction b as [|c b IH]; intros p Hb.
  - simpl. now rewrite Nat.add_0_r.
  - simpl in Hb. apply andb_prop in Hb as [Hc Hb].
    specialize (IH (p +:+ String c "") Hb).
    rewrite string_app_assoc, app_cons, app_nil, string_length_app in IH.
    simpl String.length in *.
    replace (String.length p + S (String.length b))%nat
      with (String.length p + 1 + String.length b)%nat by lia.
    rewrite IH.
    replace (String.length p + 1)%nat with (S (String.length p)) by lia.
    simpl. rewrite get_app_at.
    unfold plainByte in Hc. apply andb_prop in Hc as [Hs Hd].
    apply negb_true_iff in Hs, Hd. now rewrite Hs, Hd.
Qed.

(** The extension starts at the last dot of the last element. *)
Lemma filepath_Ext_dot (p suffix : string) :
  allChars plainByte suffix = true ->
  filepath_Ext (p +:+ "." +:+ suffix) = "." +:+ suffix.
Proof.
  intros Hs. unfold filepath_Ext.
  replace (p +:+ "." +:+ suffix) with ((p +:+ ".") +:+ suffix)
    by (now rewrite string_app_assoc).
  rewrite string_length_app, Ext_loop_skip by exact Hs.
  rewrite string_length_app. simpl String.length.
  replace (String.length p + 1)%nat with (S (String.length p)) by lia.
  rewrite string_app_assoc, app_cons, app_nil.
  simpl Ext_loop. rewrite get_app_at. simpl.
  rewrite string_length_app. simpl String.length.
  replace (String.length p + S (String.length suffix) - String.length p)%nat
    with (String.length (String "." suffix)) by (simpl; lia).
  apply substring_app_at.
Qed.

(** Without a dot in the last element there is no extension. *)
Lemma filepath_Ext_none (d name : string) :
  dirPrefix d ->
  allChars plainByte name = true ->
  filepath_Ext (d +:+ name) = "".
Proof.
  intros Hd Hn. unfold filepath_Ext.
  rewrite string_length_app, Ext_loop_skip by exact Hn.
  destruct Hd as [-> | [d' ->]]; [reflexivity |].
  rewrite string_length_app. simpl String.length.
  replace (String.length d' + 1)%nat with (S (String.length d')) by lia.
  rewrite string_app_assoc, app_cons, app_nil.
  simpl Ext_loop. now rewrite get_app_at.
Qed.


(** ** [strings.ToLower] *)

Section LowerFacts.
Context {E : GoEnv}.

Lemma ToLower_ascii (s : string) :
  allChars isASCII s = true -> ToLower s = lowerASCII s.
Proof. intros Hs. unfold ToLower. now rewrite Hs. Qed.

(** The key of a path that ends in a dot and ASCII bytes that are neither
    dots nor separators. *)
Lemma extensionOf_ascii (p suffix : string) :
  allChars plainByte suffix = true -> allChars isASCII suffix = true ->
  extensionOf (p +:+ "." +:+ suffix) = "." +:+ lowerASCII suffix.
Proof.
  intros Hs Ha. unfold extensionOf. rewrite filepath_Ext_dot by exact Hs.
  rewrite ToLower_ascii by (rewrite app_cons, app_nil; simpl; exact Ha).
  reflexivity.
Qed.
End LowerFacts.

(** ** The walk *)

Section WalkFacts.
Context {E : GoEnv}.

Lemma visit_no_error (m : Z) (path : string) (v : Visit) (c : Collector) :
  snd (visit m path v c) = None.
Proof.
  destruct v as [[name [err | info]| name readErr dirs] | d err]; simpl; try reflexivity.
  now destruct (st_size info <? m).
Qed.

Lemma visit_pair (m : Z) (path : string) (v : Visit) (c : Collector) :
  visit m path v c = (fst (visit m path v c), None).
Proof.
  rewrite <- (visit_no_error m path v c). now destruct (visit m path v c).
Qed.

Lemma collect_app (m : Z) (cs1 cs2 : list (string * Visit)) (c : Collector) :
  collect m (cs1 ++ cs2) c = collect m cs2 (collect m cs1 c).
Proof. unfold collect. now rewrite fold_left_app. Qed.

(** The walk function never stops the walk, so [walkDir] makes every call
    and reports no error. *)
Lemma walkDir_collect (m : Z) (d : FsNode) :
  forall path c,
    walkDir (visit m) path d c = (collect m (calls path d) c, None).
Proof.
  induction d as [name info | name readErr dirs IH] using FsNode_tree_ind;
    intros path c.
  - cbn [walkDir calls].
    rewrite (visit_pair m path (Entry (FsFile name info)) c). reflexivity.
  - cbn [walkDir calls].
    rewrite (visit_pair m path (Entry (FsDir name readErr dirs)) c).
    cbn [collect fold_left fst snd].
    set (c1 := fst (visit m path (Entry (FsDir name readErr dirs)) c)).
    assert (Hent : forall c2,
      (fix walkEntries (ds : list FsNode) (s : Collector) {struct ds}
         : Collector * option error :=
         match ds with
         | [] => (s, None)
         | d1 :: ds' =>
             match walkDir (visit m) (filepath_Join path (nodeName d1)) d1 s with
             | (s', Some SkipDir) => (s', None)
             | (s', Some e) => (s', Some e)
             | (s', None) => walkEntries ds' s'
             end
         end) dirs c2 =
      (collect m
         ((fix callsEntries (ds : list FsNode) : list (string * Visit) :=
             match ds with
             | [] => []
             | d1 :: ds' =>
                 calls (filepath_Join path (nodeName d1)) d1 ++ callsEntries ds'
             end) dirs) c2, None)).
    { induction IH as [|d1 ds' Hd1 _ IHds]; intros c2; [reflexivity |].
      rewrite Hd1, collect_app. apply IHds. }
    destruct readErr as [e |].
    + rewrite (visit_pair m path (Failure (Some (FsDir name (Some e) dirs)) e) c1).
      rewrite Hent. reflexivity.
    + rewrite Hent. reflexivity.
Qed.

Lemma scan_collect (fl : Flags) (lstat : string + FsNode) :
  scan fl lstat =
  (collect (minSize fl) (rootCalls (dir fl) lstat) emptyCollector, None).
Proof.
  unfold scan, WalkDir. destruct lstat as [e | d]; simpl.
  - reflexivity.
  - now rewrite walkDir_collect.
Qed.
End WalkFacts.

(** ** Wrap-around *)

Lemma wrap64_multiple (z : Z) : exists k, wrap64 z = z + k * 2 ^ 64.
Proof.
  exists (- ((z + 2 ^ 63) / 2 ^ 64)). unfold wrap64.
  rewrite Z.mod_eq by lia. lia.
Qed.

Lemma wrap64_plus_multiple (z k : Z) : wrap64 (z + k * 2 ^ 64) = wrap64 z.
Proof.
  unfold wrap64.
  replace (z + k * 2 ^ 64 + 2 ^ 63) with (z + 2 ^ 63 + k * 2 ^ 64) by lia.
  now rewrite Z_mod_plus_full.
Qed.

Lemma wrap64_small (z : Z) : minInt64 <= z <= maxInt64 -> wrap64 z = z.
Proof.
  unfold wrap64, minInt64, maxInt64. intros H.
  rewrite Z.mod_small by lia. lia.
Qed.

Lemma wrap64_range (z : Z) : minInt64 <= wrap64 z <= maxInt64.
Proof.
  unfold wrap64, minInt64, maxInt64.
  pose proof (Z.mod_pos_bound (z + 2 ^ 63) (2 ^ 64)). lia.
Qed.

(** ** Sums over maps *)

Lemma sum_snd_perm (l1 l2 : list (string * Z)) :
  Permutation l1 l2 ->
  foldr Z.add 0 (map snd l1) = foldr Z.add 0 (map snd l2).
Proof.
  induction 1 as [| x l l' _ IH | x y l | l l' l'' _ IH1 _ IH2]; simpl; lia.
Qed.

Lemma sumValues_empty : sumValues ∅ = 0.
Proof. unfold sumValues. now rewrite map_to_list_empty. Qed.

Lemma sumValues_insert_fresh (m : gmap string Z) (k : string) (v : Z) :
  m !! k = None -> sumValues (<[k := v]> m) = v + sumValues m.
Proof.
  intros Hk. unfold sumValues.
  rewrite (sum_snd_perm _ _ (map_to_list_insert m k v Hk)). reflexivity.
Qed.

Lemma sumValues_insert (m : gmap string Z) (k : string) (v : Z) :
  sumValues (<[k := v]> m) = v + sumValues m - default 0 (m !! k).
Proof.
  destruct (m !! k) as [old |] eqn:Hk; simpl.
  - rewrite <- (insert_delete_eq m k v).
    rewrite sumValues_insert_fresh by apply lookup_delete_eq.
    rewrite <- (insert_delete_id m k old Hk) at 2.
    rewrite sumValues_insert_fresh by apply lookup_delete_eq. lia.
  - rewrite sumValues_insert_fresh by exact Hk. lia.
Qed.

Lemma sumValues_addTo (m : gmap string Z) (k : string) (v : Z) :
  sumValues (addTo m k v) =
  sumValues m - default 0 (m !! k) + wrap64 (default 0 (m !! k) + v).
Proof. unfold addTo. rewrite sumValues_insert. lia. Qed.

(** A value is at most the sum when no value is negative. *)
Lemma lookup_le_sumValues (m : gmap string Z) (k : string) (x : Z) :
  map_Forall (fun _ v => 0 <= v) m -> m !! k = Some x -> x <= sumValues m.
Proof.
  intros Hpos Hk.
  rewrite <- (insert_delete_id m k x Hk).
  rewrite sumValues_insert_fresh by apply lookup_delete_eq.
  assert (Hd : map_Forall (fun _ v => 0 <= v) (delete k m)).
  { intros j y Hj. apply lookup_delete_Some in Hj as [_ Hj]. exact (Hpos j y Hj). }
  revert Hd. generalize (delete k m). intros m'.
  induction m' as [| j y m' Hj _ IH] using map_first_key_ind.
  - rewrite sumValues_empty. lia.
  - intros Hall. rewrite sumValues_insert_fresh by exact Hj.
    apply map_Forall_insert in Hall as [Hy Hall]; [| exact Hj].
    specialize (IH Hall). lia.
Qed.

(** ** Tallies *)

(** The keys of a tally are the keys it started from and the keys of the
    records. *)
Lemma tally_lookup_is_Some key val (fs : list FileInfo) (m : gmap string Z) (k : string) :
  is_Some (tally key val fs m !! k) <->
  is_Some (m !! k) \/ exists f, In f fs /\ key f = k.
Proof.
  revert m. induction fs as [| f fs IH]; intros m; simpl.
  - split; [now left | intros [H | (f & [] & _)]; exact H].
  - change (tally key val (f :: fs) m) with (tally key val fs (addTo m (key f) (val f))).
    rewrite IH. unfold addTo. rewrite lookup_insert_is_Some.
    split.
    + intros [[Hk | [Hne Hm]] | (g & Hg & Hk)].
      * right. exists f. auto.
      * now left.
      * right. exists g. auto.
    + intros [Hm | (g & [-> | Hg] & Hk)].
      * destruct (decide (key f = k)); [left; now left | left; right; auto].
      * left. now left.
      * right. exists g. auto.
Qed.

(** Modulo [2^64] a tally adds up to what was added. *)
Lemma sumValues_tally_mod key val (fs : list FileInfo) (m : gmap string Z) :
  exists k, sumValues (tally key val fs m) =
            sumValues m + foldr Z.add 0 (map val fs) + k * 2 ^ 64.
Proof.
  revert m. induction fs as [| f fs IH]; intros m; simpl.
  - exists 0. lia.
  - change (tally key val (f :: fs) m) with (tally key val fs (addTo m (key f) (val f))).
    destruct (IH (addTo m (key f) (val f))) as [k Hk].
    rewrite Hk, sumValues_addTo.
    destruct (wrap64_multiple (default 0 (m !! key f) + val f)) as [j ->].
    exists (k + j). lia.
Qed.

(** Without negative entries and within [int64] a tally adds up exactly
    and keeps its values non-negative. *)
Lemma sumValues_tally_exact key val (fs : list FileInfo) (m : gmap string Z) :
  map_Forall (fun _ v => 0 <= v) m ->
  Forall (fun f => 0 <= val f) fs ->
  sumValues m + foldr Z.add 0 (map val fs) <= maxInt64 ->
  sumValues (tally key val fs m) = sumValues m + foldr Z.add 0 (map val fs)
  /\ map_Forall (fun _ v => 0 <= v) (tally key val fs m).
Proof.
  revert m. induction fs as [| f fs IH]; intros m Hm Hfs Hsum; simpl in *.
  - split; [lia | exact Hm].
  - change (tally key val (f :: fs) m) with (tally key val fs (addTo m (key f) (val f))).
    apply Forall_cons in Hfs as [Hf Hfs].
    assert (Htail : 0 <= foldr Z.add 0 (map val fs)).
    { clear -Hfs. induction Hfs; simpl; lia. }
    assert (Hold : 0 <= default 0 (m !! key f) <= sumValues m).
    { destruct (m !! key f) as [old |] eqn:Hk; simpl.
      - split; [exact (Hm _ _ Hk) | exact (lookup_le_sumValues m _ _ Hm Hk)].
      - split; [lia |].
        clear -Hm. induction m as [| j y m' Hj _ IH] using map_first_key_ind.
        + rewrite sumValues_empty. lia.
        + rewrite sumValues_insert_fresh by exact Hj.
          apply map_Forall_insert in Hm as [Hy Hm]; [| exact Hj].
          specialize (IH Hm). lia. }
    assert (Hw : wrap64 (default 0 (m !! key f) + val f) = default 0 (m !! key f) + val f).
    { apply wrap64_small. unfold minInt64, maxInt64 in *. lia. }
    assert (Hsum' : sumValues (addTo m (key f) (val f)) = sumValues m + val f).
    { rewrite sumValues_addTo, Hw. lia. }
    destruct (IH (addTo m (key f) (val f))) as [IH1 IH2].
    + unfold addTo. apply map_Forall_insert_2; [rewrite Hw; lia | exact Hm].
    + exact Hfs.
    + rewrite Hsum'. lia.
    + split; [rewrite IH1, Hsum'; lia | exact IH2].
Qed.

(** ** The collector *)

Section CollectorFacts.
Context {E : GoEnv}.

Lemma fileRecord_Path path name st : Path (fileRecord path name st) = path.
Proof. unfold fileRecord. now destruct (negb _). Qed.

Lemma fileRecord_Size path name st : Size (fileRecord path name st) = st_size st.
Proof. unfold fileRecord. now destruct (negb _). Qed.

Lemma fileRecord_Ext path name st : Ext (fileRecord path name st) = extensionOf path.
Proof. unfold fileRecord. now destruct (negb _). Qed.

(** One call: either the collector keeps its three aggregates, or the
    record of the call joins all three. *)
Lemma visit_step (m : Z) (pv : string * Visit) (c : Collector) :
  let c' := fst (visit m (fst pv) (snd pv) c) in
  match kept m pv with
  | None =>
      files c' = files c /\ totalSize c' = totalSize c
      /\ directorySizes c' = directorySizes c
  | Some f =>
      files c' = files c ++ [f]
      /\ totalSize c' = wrap64 (totalSize c + Size f)
      /\ directorySizes c' = addTo (directorySizes c) (filepath_Dir (Path f)) (Size f)
      /\ out c' = out c
  end.
Proof.
  destruct pv as [path v]. unfold kept. simpl fst. simpl snd.
  destruct v as [[name [err | info]| name readErr dirs] | d err]; simpl; auto.
  destruct (st_size info <? m); simpl; auto.
  now rewrite fileRecord_Path, fileRecord_Size.
Qed.

Lemma collect_files (m : Z) (cs : list (string * Visit)) (c : Collector) :
  files (collect m cs c) = files c ++ omap (kept m) cs.
Proof.
  revert c. induction cs as [| pv cs IH]; intros c; simpl.
  - now rewrite app_nil_r.
  - change (collect m (pv :: cs) c)
      with (collect m cs (fst (visit m (fst pv) (snd pv) c))).
    rewrite IH. pose proof (visit_step m pv c) as H. simpl in H.
    destruct (kept m pv) as [f |].
    + destruct H as (-> & _). now rewrite <- app_assoc.
    + now destruct H as (-> & _).
Qed.

Lemma collect_totalSize (m : Z) (cs : list (string * Visit)) (c : Collector) :
  totalSize (collect m cs c) =
  fold_left (fun t f => wrap64 (t + Size f)) (omap (kept m) cs) (totalSize c).
Proof.
  revert c. induction cs as [| pv cs IH]; intros c; simpl; [reflexivity |].
  change (collect m (pv :: cs) c)
    with (collect m cs (fst (visit m (fst pv) (snd pv) c))).
  rewrite IH. pose proof (visit_step m pv c) as H. simpl in H.
  destruct (kept m pv) as [f |].
  - destruct H as (_ & -> & _). reflexivity.
  - now destruct H as (_ & -> & _).
Qed.

Lemma collect_directorySizes (m : Z) (cs : list (string * Visit)) (c : Collector) :
  directorySizes (collect m cs c) =
  tally (fun f => filepath_Dir (Path f)) Size (omap (kept m) cs) (directorySizes c).
Proof.
  revert c. induction cs as [| pv cs IH]; intros c; simpl; [reflexivity |].
  change (collect m (pv :: cs) c)
    with (collect m cs (fst (visit m (fst pv) (snd pv) c))).
  rewrite IH. pose proof (visit_step m pv c) as H. simpl in H.
  destruct (kept m pv) as [f |].
  - destruct H as (_ & _ & -> & _). reflexivity.
  - now destruct H as (_ & _ & ->).
Qed.

(** A call for a file below the floor leaves the collector as it is. *)
Lemma visit_belowFloor (m : Z) (pv : string * Visit) (c : Collector) :
  belowFloor m pv = true -> fst (visit m (fst pv) (snd pv) c) = c.
Proof.
  destruct pv as [path v]. unfold belowFloor. simpl fst. simpl snd.
  destruct v as [[name [err | info]| name readErr dirs] | d err]; simpl;
    try discriminate.
  now intros ->.
Qed.

Lemma collect_drop_belowFloor (m : Z) (cs : list (string * Visit)) (c : Collector) :
  collect m cs c = collect m (filter (fun pv => negb (belowFloor m pv)) cs) c.
Proof.
  revert c. induction cs as [| pv cs IH]; intros c; [reflexivity |].
  change (collect m (pv :: cs) c)
    with (collect m cs (fst (visit m (fst pv) (snd pv) c))).
  rewrite filter_cons. destruct (belowFloor m pv) eqn:Hb.
  - rewrite decide_False by (simpl; intros []).
    rewrite (visit_belowFloor m pv c Hb). apply IH.
  - rewrite decide_True by (simpl; exact I).
    change (collect m (pv :: filter _ cs) c)
      with (collect m (filter (fun pv => negb (belowFloor m pv)) cs)
              (fst (visit m (fst pv) (snd pv) c))).
    apply IH.
Qed.

Lemma kept_floor (m : Z) (pv : string * Visit) (f : FileInfo) :
  kept m pv = Some f -> m <= Size f /\ Ext f = extensionOf (Path f).
Proof.
  destruct pv as [path v]. unfold kept. simpl fst. simpl snd.
  destruct v as [[name [err | info]| name readErr dirs] | d err]; try discriminate.
  destruct (st_size info <? m) eqn:Hlt; [discriminate |].
  intros [= <-]. rewrite fileRecord_Size, fileRecord_Ext, fileRecord_Path.
  apply Z.ltb_ge in Hlt. auto.
Qed.

Lemma collected_floor (m : Z) (cs : list (string * Visit)) :
  Forall (fun f => m <= Size f /\ Ext f = extensionOf (Path f))
         (files (collect m cs emptyCollector)).
Proof.
  rewrite collect_files. simpl. apply Forall_forall. intros f Hf.
  apply list_elem_of_omap in Hf as (pv & _ & Hk). exact (kept_floor m pv f Hk).
Qed.

(** The running total is the wrapped sum of the sizes. *)
Lemma wrapped_total (fs : list FileInfo) (t : Z) :
  fold_left (fun t f => wrap64 (t + Size f)) fs (wrap64 t) = wrap64 (t + sumSizes fs).
Proof.
  revert t. induction fs as [| f fs IH]; intros t; simpl.
  - unfold sumSizes. simpl. now rewrite Z.add_0_r.
  - destruct (wrap64_multiple t) as [k Hk].
    rewrite Hk.
    replace (t + k * 2 ^ 64 + Size f) with ((t + Size f) + k * 2 ^ 64) by lia.
    rewrite wrap64_plus_multiple, IH. unfold sumSizes. simpl. f_equal. lia.
Qed.

Lemma collect_totalSize_sum (m : Z) (cs : list (string * Visit)) :
  let c := collect m cs emptyCollector in
  totalSize c = wrap64 (sumSizes (files c)).
Proof.
  simpl. rewrite collect_totalSize, collect_files. simpl.
  change 0 with (wrap64 0) at 1. now rewrite wrapped_total.
Qed.

Lemma groupByExt_tally (fs : list FileInfo) :
  groupByExt fs = (tally Ext (fun _ => 1) fs ∅, tally Ext Size fs ∅).
Proof.
  unfold groupByExt, tally.
  generalize (∅ : gmap string Z) at 1 3. generalize (∅ : gmap string Z).
  induction fs as [| f fs IH]; intros m1 m2; simpl; [reflexivity |]. apply IH.
Qed.

Lemma analyzeFiles_fields (fs : list FileInfo) (total : Z) (ds : gmap string Z) (du : Z) :
  analyzeFiles fs total ds du =
  {| TotalFiles := Z.of_nat (length fs);
     TotalSize := total;
     LargestFiles := sort_Slice bySize fs;
     FilesByExtension := tally Ext (fun _ => 1) fs ∅;
     SizeByExtension := tally Ext Size fs ∅;
     OldestFiles := sort_Slice byLastUsed fs;
     DirectorySizes := ds |}.
Proof. unfold analyzeFiles. now rewrite groupByExt_tally. Qed.
End CollectorFacts.

(** ** Sorting *)

Section SortFacts.
Context {A : Type}.
Variable less : A -> A -> bool.

Lemma insertInto_perm (x : A) (l : list A) :
  Permutation (x :: l) (insertInto less x l).
Proof.
  induction l as [| y l IH]; simpl; [reflexivity |].
  destruct (less y x); [| reflexivity].
  rewrite perm_swap. now apply perm_skip.
Qed.

Lemma stableSort_perm (l : list A) : Permutation l (stableSort less l).
Proof.
  induction l as [| x l IH]; simpl; [reflexivity |].
  rewrite <- insertInto_perm. now apply perm_skip.
Qed.

Hypothesis Hsw : StrictWeak less.

Lemma notAfter_trans (x y z : A) :
  notAfter less x y -> notAfter less y z -> notAfter less x z.
Proof. unfold notAfter. intros Hxy Hyz. exact (sw_incomp less Hsw z y x Hyz Hxy). Qed.

Lemma less_notAfter (x y : A) : less x y = true -> notAfter less x y.
Proof.
  unfold notAfter. intros Hxy. destruct (less y x) eqn:Hyx; [| reflexivity].
  pose proof (sw_trans less Hsw x y x Hxy Hyx) as Hxx.
  rewrite (sw_irrefl less Hsw) in Hxx. discriminate.
Qed.

Lemma insertInto_sorted (x : A) (l : list A) :
  StronglySorted (notAfter less) l ->
  StronglySorted (notAfter less) (insertInto less x l).
Proof.
  induction 1 as [| y l Hl IH Hy]; simpl.
  - constructor; constructor.
  - destruct (less y x) eqn:Hyx.
    + constructor; [exact IH |].
      apply List.Forall_forall. intros z Hz.
      apply (Permutation_in _ (Permutation_sym (insertInto_perm x l))) in Hz.
      destruct Hz as [<- | Hz].
      * now apply less_notAfter.
      * rewrite List.Forall_forall in Hy. exact (Hy z Hz).
    + constructor; [now constructor |].
      constructor; [exact Hyx |].
      apply List.Forall_forall. intros z Hz. rewrite List.Forall_forall in Hy.
      exact (notAfter_trans x y z Hyx (Hy z Hz)).
Qed.

Lemma stableSort_sorted (l : list A) : StronglySorted (notAfter less) (stableSort less l).
Proof.
  induction l as [| x l IH]; simpl; [constructor | now apply insertInto_sorted].
Qed.

(** Under a strict weak ordering, order between neighbours is order
    between any two. *)
Lemma Sorted_notAfter_strong (l : list A) :
  Sorted (notAfter less) l -> StronglySorted (notAfter less) l.
Proof.
  apply Sorted_StronglySorted. intros x y z. apply notAfter_trans.
Qed.
End SortFacts.

Lemma StrictWeak_by {A : Type} (key : A -> Z) :
  StrictWeak (fun a b => key a <? key b).
Proof.
  split.
  - intros x. apply Z.ltb_irrefl.
  - intros x y z Hxy Hyz. apply Z.ltb_lt in Hxy, Hyz. apply Z.ltb_lt. lia.
  - intros x y z Hxy Hyz. apply Z.ltb_ge in Hxy, Hyz. apply Z.ltb_ge. lia.
Qed.

Lemma StrictWeak_bySize : StrictWeak bySize.
Proof.
  split; unfold bySize.
  - intros x. apply Z.ltb_irrefl.
  - intros x y z Hxy Hyz. apply Z.ltb_lt in Hxy, Hyz. apply Z.ltb_lt. lia.
  - intros x y z Hxy Hyz. apply Z.ltb_ge in Hxy, Hyz. apply Z.ltb_ge. lia.
Qed.

Lemma StrictWeak_byLastUsed : StrictWeak byLastUsed.
Proof. exact (StrictWeak_by LastUsed). Qed.

Lemma StrictWeak_greater {V : Type} (val : V -> Z) :
  StrictWeak (fun a b : V => greater (val a) (val b)).
Proof.
  split; unfold greater.
  - intros x. apply Z.ltb_irrefl.
  - intros x y z Hxy Hyz. apply Z.ltb_lt in Hxy, Hyz. apply Z.ltb_lt. lia.
  - intros x y z Hxy Hyz. apply Z.ltb_ge in Hxy, Hyz. apply Z.ltb_ge. lia.
Qed.

(** The reference environment behaves as documented. *)
Lemma refEnv_spec : GoEnvSpec refEnv.
Proof.
  split; simpl.
  - intros A less l. apply stableSort_perm.
  - intros A less l Hsw. apply StronglySorted_Sorted. now apply stableSort_sorted.
  - intros V m. reflexivity.
Qed.

(** ** The loops of the reporter *)

Lemma topLoop_firstn {A : Type} (render : A -> string) (topN : Z) (xs : list A) (i : Z) :
  topLoop render topN i xs = map render (firstn (Z.to_nat (topN - i)) xs).
Proof.
  revert i. induction xs as [| x xs IH]; intros i; simpl.
  - now rewrite firstn_nil.
  - destruct (i <? topN) eqn:Hi.
    + apply Z.ltb_lt in Hi. rewrite IH.
      replace (Z.to_nat (topN - i)) with (S (Z.to_nat (topN - (i + 1)))) by lia.
      reflexivity.
    + apply Z.ltb_ge in Hi.
      replace (Z.to_nat (topN - i)) with O by lia. reflexivity.
Qed.

(** The loop prints the stale records in order and stops after the print
    that brings [printed] up to [topN] — so after one print at the latest
    when [topN] was reached before the loop began. *)
Lemma unusedLoop_spec (now cutoff : Time) (topN : Z) (xs : list FileInfo) (printed : Z) :
  let shown := firstn (Z.to_nat (Z.max 1 (topN - printed))) (staleFiles cutoff xs) in
  unusedLoop now cutoff topN printed xs =
  (map (fileLine now) shown, printed + Z.of_nat (length shown)).
Proof.
  revert printed. induction xs as [| f xs IH]; intros printed; simpl.
  - rewrite firstn_nil. simpl. f_equal. lia.
  - unfold staleFiles in *. simpl.
    destruct (Before (LastUsed f) cutoff) eqn:Hf.
    + destruct (topN <=? printed + 1) eqn:Ht.
      * apply Z.leb_le in Ht.
        replace (Z.to_nat (Z.max 1 (topN - printed))) with 1%nat by lia.
        simpl. f_equal.
      * apply Z.leb_gt in Ht. rewrite IH.
        replace (Z.to_nat (Z.max 1 (topN - printed)))
          with (S (Z.to_nat (Z.max 1 (topN - (printed + 1))))) by lia.
        simpl. f_equal. lia.
    + apply IH.
Qed.

(** ** [float64] arithmetic *)

Lemma fexp64 (e : Z) : fexp 53 1024 e = Z.max (e - 53) (-1074).
Proof. reflexivity. Qed.

Lemma digits2_pos_size (p : positive) : digits2_pos p = Pos.size p.
Proof. induction p as [p IH | p IH |]; simpl; now rewrite ?IH. Qed.

Lemma digits2_log2 (p : positive) : Z.pos (digits2_pos p) = Z.log2 (Z.pos p) + 1.
Proof.
  rewrite digits2_pos_size. destruct p as [p | p |]; simpl; try lia.
Qed.

(** The number of binary digits of a positive integer. *)
Lemma digits2_bounds (p : positive) :
  2 ^ (Z.pos (digits2_pos p) - 1) <= Z.pos p < 2 ^ Z.pos (digits2_pos p).
Proof.
  rewrite digits2_log2.
  pose proof (Z.log2_spec (Z.pos p) (Pos2Z.is_pos p)) as H.
  replace (Z.log2 (Z.pos p) + 1 - 1) with (Z.log2 (Z.pos p)) by lia.
  unfold Z.succ in H. exact H.
Qed.

Lemma digits2_unique (p : positive) (d : Z) :
  2 ^ (d - 1) <= Z.pos p < 2 ^ d -> Z.pos (digits2_pos p) = d.
Proof.
  intros H. rewrite digits2_log2.
  assert (0 < d).
  { destruct (Z_lt_le_dec 0 d) as [|Hd]; [assumption |].
    assert (2 ^ d <= 1).
    { destruct (Z.eq_dec d 0) as [-> | Hne]; [simpl; lia |].
      rewrite Z.pow_neg_r by lia. lia. }
    lia. }
  rewrite (Z.log2_unique (Z.pos p) (d - 1)); [lia | lia |].
  replace (Z.succ (d - 1)) with d by lia. exact H.
Qed.

Lemma shr_1_m (mrs : shr_record) :
  0 <= shr_m mrs -> shr_m (shr_1 mrs) = shr_m mrs / 2.
Proof.
  destruct mrs as [m r s]. simpl. intros Hm.
  destruct m as [| [p | p |] | p]; simpl; try reflexivity; try lia.
  - rewrite Pos2Z.inj_xI. apply (Z.div_unique_pos _ _ _ 1); lia.
  - rewrite Pos2Z.inj_xO. apply (Z.div_unique_pos _ _ _ 0); lia.
Qed.

Lemma pow2_xI (n : positive) : 2 ^ Z.pos n~1 = 2 * (2 ^ Z.pos n * 2 ^ Z.pos n).
Proof.
  replace (Z.pos n~1) with (1 + (Z.pos n + Z.pos n)) by lia.
  rewrite !Z.pow_add_r by lia. reflexivity.
Qed.

Lemma pow2_xO (n : positive) : 2 ^ Z.pos n~0 = 2 ^ Z.pos n * 2 ^ Z.pos n.
Proof.
  replace (Z.pos n~0) with (Z.pos n + Z.pos n) by lia.
  now rewrite Z.pow_add_r by lia.
Qed.

Lemma iter_shr_1_m (n : positive) (mrs : shr_record) :
  0 <= shr_m mrs ->
  shr_m (SpecFloat.iter_pos shr_1 n mrs) = shr_m mrs / 2 ^ Z.pos n.
Proof.
  revert mrs. induction n as [n IH | n IH |]; intros mrs Hm; simpl SpecFloat.iter_pos.
  - assert (H1 : 0 <= shr_m (shr_1 mrs)).
    { rewrite shr_1_m by exact Hm. apply Z.div_pos; lia. }
    assert (H2 : 0 <= shr_m (SpecFloat.iter_pos shr_1 n (shr_1 mrs))).
    { rewrite IH by exact H1. apply Z.div_pos; lia. }
    rewrite IH by exact H2. rewrite IH by exact H1. rewrite shr_1_m by exact Hm.
    rewrite pow2_xI, !Z.div_div by lia. reflexivity.
  - assert (H2 : 0 <= shr_m (SpecFloat.iter_pos shr_1 n mrs)).
    { rewrite IH by exact Hm. apply Z.div_pos; lia. }
    rewrite IH by exact H2. rewrite IH by exact Hm.
    rewrite pow2_xO, Z.div_div by lia. reflexivity.
  - rewrite shr_1_m by exact Hm. reflexivity.
Qed.

Lemma shr_m_of_loc (m : Z) (l : location) : shr_m (shr_record_of_loc m l) = m.
Proof. destruct l as [| []]; reflexivity. Qed.

(** The first shift of a mantissa of at least 53 bits leaves its 53
    leading bits. *)
Lemma shr_fexp_spec (m : positive) (e : Z) (l : location) :
  let d := Z.pos (digits2_pos m) in
  53 <= d -> -1021 <= d + e ->
  exists mrs, shr_fexp 53 1024 (Z.pos m) e l = (mrs, e + (d - 53))
              /\ shr_m mrs = Z.pos m / 2 ^ (d - 53).
Proof.
  intros d Hd He. unfold shr_fexp. simpl Zdigits2. fold d.
  rewrite fexp64, Z.max_l by lia.
  replace (d + e - 53 - e) with (d - 53) by lia.
  unfold shr. destruct (d - 53) as [| n | n] eqn:Hn; try lia.
  - eexists. split; [f_equal; lia |].
    rewrite shr_m_of_loc. simpl. now rewrite Z.div_1_r.
  - eexists. split; [reflexivity |].
    rewrite iter_shr_1_m by (rewrite shr_m_of_loc; lia).
    now rewrite shr_m_of_loc.
Qed.

Lemma round_nearest_even_bounds (q : Z) (l : location) :
  q <= round_nearest_even q l <= q + 1.
Proof.
  destruct l as [| []]; simpl; try lia.
  destruct (Z.even q); lia.
Qed.

(** Rounding a positive mantissa of at least 53 bits, within the exponent
    range, gives a normal number: 53 bits and an exponent that went up by
    the bits dropped, and by one more if the rounding carried. *)
Lemma binary_round_aux_normal (s : bool) (mx : positive) (ex : Z) (lx : location) :
  let d := Z.pos (digits2_pos mx) in
  53 <= d -> -1021 <= d + ex -> d + ex <= 1023 ->
  exists m e,
    binary_round_aux 53 1024 s (Z.pos mx) ex lx = S754_finite s m e
    /\ Z.pos (digits2_pos m) = 53
    /\ d + ex - 53 <= e <= d + ex - 52.
Proof.
  intros d Hd Hlo Hhi. unfold binary_round_aux.
  destruct (shr_fexp_spec mx ex lx Hd Hlo) as (mrs & -> & Hq). fold d in Hq |- *.
  set (q := shr_m mrs) in *.
  pose proof (digits2_bounds mx) as Hmx. fold d in Hmx.
  assert (Hqb : 2 ^ 52 <= q < 2 ^ 53).
  { rewrite Hq.
    assert (Hp : 2 ^ (d - 1) = 2 ^ 52 * 2 ^ (d - 53)).
    { rewrite <- Z.pow_add_r by lia. f_equal. lia. }
    assert (Hp' : 2 ^ d = 2 ^ 53 * 2 ^ (d - 53)).
    { rewrite <- Z.pow_add_r by lia. f_equal. lia. }
    assert (0 < 2 ^ (d - 53)) by (apply Z.pow_pos_nonneg; lia).
    split.
    - apply Z.div_le_lower_bound; lia.
    - apply Z.div_lt_upper_bound; lia. }
  pose proof (round_nearest_even_bounds q (loc_of_shr_record mrs)) as Hr.
  set (m1 := round_nearest_even q (loc_of_shr_record mrs)) in *.
  destruct m1 as [| p1 | p1] eqn:Hm1; try lia.
  destruct (Z_lt_le_dec (Z.pos p1) (2 ^ 53)) as [Hlt | Hge].
  - assert (Hd1 : Z.pos (digits2_pos p1) = 53) by (apply digits2_unique; lia).
    assert (Hd1' : 53 <= Z.pos (digits2_pos p1)) by lia.
    destruct (shr_fexp_spec p1 (ex + (d - 53)) loc_Exact Hd1' ltac:(lia))
      as (mrs2 & -> & Hq2).
    rewrite Hd1 in Hq2. simpl in Hq2. rewrite Z.div_1_r in Hq2. rewrite Hq2.
    rewrite Hd1.
    destruct (ex + (d - 53) + (53 - 53) <=? 1024 - 53) eqn:Hle;
      [| apply Z.leb_gt in Hle; lia].
    exists p1, (ex + (d - 53) + (53 - 53)). repeat split; [exact Hd1 | lia | lia].
  - assert (Hp1 : Z.pos p1 = 2 ^ 53) by lia.
    assert (Hd1 : Z.pos (digits2_pos p1) = 54) by (apply digits2_unique; lia).
    assert (Hd1' : 53 <= Z.pos (digits2_pos p1)) by lia.
    destruct (shr_fexp_spec p1 (ex + (d - 53)) loc_Exact Hd1' ltac:(lia))
      as (mrs2 & -> & Hq2).
    rewrite Hd1, Hp1 in Hq2. change (2 ^ 53 / 2 ^ (54 - 53)) with (2 ^ 52) in Hq2.
    rewrite Hq2, Hd1. change (2 ^ 52) with (Z.pos 4503599627370496).
    cbv iota beta.
    destruct (ex + (d - 53) + (54 - 53) <=? 1024 - 53) eqn:Hle;
      [| apply Z.leb_gt in Hle; lia].
    exists 4503599627370496%positive, (ex + (d - 53) + (54 - 53)).
    repeat split; lia.
Qed.

Lemma shr_fexp_53 (m : positive) (e : Z) (l : location) :
  Z.pos (digits2_pos m) = 53 -> -1074 <= e ->
  shr_fexp 53 1024 (Z.pos m) e l = (shr_record_of_loc (Z.pos m) l, e).
Proof.
  intros Hd He. unfold shr_fexp. simpl Zdigits2. rewrite Hd, fexp64, Z.max_l by lia.
  replace (53 + e - 53 - e) with 0 by lia. reflexivity.
Qed.

(** A mantissa of 53 bits is kept as it is. *)
Lemma binary_round_aux_exact (s : bool) (mx : positive) (ex : Z) :
  Z.pos (digits2_pos mx) = 53 -> -1074 <= ex <= 971 ->
  binary_round_aux 53 1024 s (Z.pos mx) ex loc_Exact = S754_finite s mx ex.
Proof.
  intros Hd He. unfold binary_round_aux.
  rewrite shr_fexp_53 by (assumption || lia). simpl.
  rewrite shr_fexp_53 by (assumption || lia). simpl.
  destruct (ex <=? 1024 - 53) eqn:Hle; [reflexivity | apply Z.leb_gt in Hle; lia].
Qed.

(** An even mantissa of 54 bits loses its last bit. *)
Lemma binary_round_aux_even (s : bool) (mx : positive) (ex : Z) :
  Z.pos (digits2_pos mx) = 53 -> -1074 <= ex <= 970 ->
  binary_round_aux 53 1024 s (Z.pos mx~0) ex loc_Exact = S754_finite s mx (ex + 1).
Proof.
  intros Hd He. unfold binary_round_aux.
  assert (H1 : shr_fexp 53 1024 (Z.pos mx~0) ex loc_Exact =
               ({| shr_m := Z.pos mx; shr_r := false; shr_s := false |}, ex + 1)).
  { unfold shr_fexp. simpl Zdigits2.
    rewrite Pos2Z.inj_succ, Hd, fexp64, Z.max_l by lia.
    replace (Z.succ 53 + ex - 53 - ex) with 1 by lia. reflexivity. }
  rewrite H1. simpl.
  rewrite shr_fexp_53 by (assumption || lia). simpl.
  destruct (ex + 1 <=? 1024 - 53) eqn:Hle; [reflexivity | apply Z.leb_gt in Hle; lia].
Qed.

Lemma iter_xO_value (p n : positive) :
  Z.pos (Pos.iter xO p n) = Z.pos p * 2 ^ Z.pos n.
Proof.
  induction n as [| n IH] using Pos.peano_ind.
  - simpl. lia.
  - rewrite Pos.iter_succ, Pos2Z.inj_xO, IH, Pos2Z.inj_succ, Z.pow_succ_r by lia. lia.
Qed.

(** Aligning a mantissa to a lower exponent multiplies it by the power of
    two between them. *)
Lemma shl_align_value (m : positive) (e e' : Z) :
  e' <= e ->
  Z.pos (fst (shl_align m e e')) = Z.pos m * 2 ^ (e - e')
  /\ snd (shl_align m e e') = e'.
Proof.
  intros He. unfold shl_align.
  destruct (e' - e) as [| n | n] eqn:Hn; try lia; simpl.
  - replace (e - e') with 0 by lia. split; lia.
  - rewrite iter_xO_value. replace (e - e') with (Z.pos n) by lia. split; reflexivity.
Qed.

Lemma normal64_weaken (lo hi lo' hi' : Z) (x : float64) :
  lo' <= lo -> hi <= hi' -> normal64 lo hi x -> normal64 lo' hi' x.
Proof. intros H1 H2 (m & e & -> & Hd & He). exists m, e. repeat split; (assumption || lia). Qed.

(** Conversion of a positive integer: exact up to 53 bits. *)
Lemma f64_normal (z : Z) :
  0 < z < 2 ^ 1000 ->
  normal64 (Z.log2 z - 52) (Z.log2 z - 51) (f64 z)
  /\ (z < 2 ^ 53 ->
      exists m, f64 z = S754_finite false m (Z.log2 z - 52)
                /\ Z.pos (digits2_pos m) = 53
                /\ Z.pos m = z * 2 ^ (52 - Z.log2 z)).
Proof.
  intros Hz. destruct z as [| p | p]; try lia.
  unfold f64, binary_normalize, binary_round.
  pose proof (digits2_log2 p) as Hlog. pose proof (digits2_bounds p) as Hb.
  set (d := Z.pos (digits2_pos p)) in *.
  assert (Hd1000 : d <= 1000).
  { destruct (Z_lt_le_dec 1000 d) as [Hgt |]; [| lia].
    assert (2 ^ 1000 <= 2 ^ (d - 1)) by (apply Z.pow_le_mono_r; lia). lia. }
  replace (Z.log2 (Z.pos p)) with (d - 1) by lia.
  rewrite Z.add_0_r, fexp64.
  destruct (Z_lt_le_dec d 53) as [Hlt | Hge].
  - rewrite Z.max_l by lia.
    pose proof (shl_align_value p 0 (d - 53) ltac:(lia)) as [Hv He].
    destruct (shl_align p 0 (d - 53)) as [mz ez]. simpl in Hv, He. subst ez.
    assert (Hdz : Z.pos (digits2_pos mz) = 53).
    { apply digits2_unique. rewrite Hv.
      replace (0 - (d - 53)) with (53 - d) by lia.
      assert (Hp : 2 ^ 52 = 2 ^ (d - 1) * 2 ^ (53 - d)).
      { rewrite <- Z.pow_add_r by lia. f_equal. lia. }
      assert (Hp' : 2 ^ 53 = 2 ^ d * 2 ^ (53 - d)).
      { rewrite <- Z.pow_add_r by lia. f_equal. lia. }
      assert (0 < 2 ^ (53 - d)) by (apply Z.pow_pos_nonneg; lia).
      change (53 - 1) with 52. nia. }
    rewrite binary_round_aux_exact by (assumption || lia).
    split.
    + exists mz, (d - 53). repeat split; (assumption || lia).
    + intros _. exists mz. replace (d - 1 - 52) with (d - 53) by lia.
      repeat split; [assumption |]. rewrite Hv. f_equal. f_equal. lia.
  - rewrite Z.max_l by lia.
    assert (Hal : shl_align p 0 (d - 53) = (p, 0)).
    { unfold shl_align. destruct (d - 53 - 0) as [| n | n] eqn:Hn; try lia; reflexivity. }
    rewrite Hal.
    destruct (Z.eq_dec d 53) as [Heq | Hne].
    + rewrite binary_round_aux_exact by (assumption || lia).
      split.
      * exists p, 0. repeat split; (assumption || lia).
      * intros _. exists p. rewrite Heq. repeat split; [assumption | simpl; lia].
    + destruct (binary_round_aux_normal false p 0 loc_Exact) as (m & e & -> & Hdm & He);
        fold d; try lia.
      split.
      * exists m, e. repeat split; (assumption || lia).
      * intros Hsmall.
        assert (2 ^ 53 <= 2 ^ (d - 1)) by (apply Z.pow_le_mono_r; lia). lia.
Qed.

Lemma div_eucl_div_mod (a b : Z) : Z.div_eucl a b = (a / b, a mod b).
Proof. unfold Z.div, Z.modulo. now destruct (Z.div_eucl a b). Qed.

(** Division of normal numbers gives a normal number. *)
Lemma f64div_normal (lo1 hi1 lo2 hi2 : Z) (x y : float64) :
  normal64 lo1 hi1 x -> normal64 lo2 hi2 y ->
  -900 <= lo1 - hi2 -> hi1 - lo2 <= 900 ->
  normal64 (lo1 - hi2 - 53) (hi1 - lo2 - 51) (f64div x y).
Proof.
  intros (m1 & e1 & -> & Hd1 & He1) (m2 & e2 & -> & Hd2 & He2) Hlo Hhi.
  unfold f64div, SFdiv, SFdiv_core_binary. simpl Zdigits2.
  rewrite Hd1, Hd2, fexp64.
  replace (53 + e1 - (53 + e2)) with (e1 - e2) by lia.
  rewrite Z.max_l, Z.min_l by lia.
  replace (e1 - e2 - (e1 - e2 - 53)) with 53 by lia.
  rewrite Z.shiftl_mul_pow2, div_eucl_div_mod by lia.
  pose proof (digits2_bounds m1) as Hb1. pose proof (digits2_bounds m2) as Hb2.
  rewrite Hd1 in Hb1. rewrite Hd2 in Hb2. change (53 - 1) with 52 in *.
  set (q := Z.pos m1 * 2 ^ 53 / Z.pos m2).
  assert (Hq : 2 ^ 52 <= q < 2 ^ 54).
  { subst q. split.
    - apply Z.div_le_lower_bound; [lia |].
      change (2 ^ 53) with (2 * 2 ^ 52) in *. nia.
    - apply Z.div_lt_upper_bound; [lia |].
      change (2 ^ 54) with (2 * 2 ^ 53) in *. change (2 ^ 53) with (2 * 2 ^ 52) in *. nia. }
  destruct q as [| pq | pq] eqn:Hpq; try lia.
  assert (Hdq : 53 <= Z.pos (digits2_pos pq) <= 54).
  { destruct (Z_lt_le_dec (Z.pos pq) (2 ^ 53)).
    - rewrite (digits2_unique pq 53); lia.
    - rewrite (digits2_unique pq 54); lia. }
  destruct (binary_round_aux_normal (xorb false false) pq (e1 - e2 - 53)
              (new_location (Z.pos m2) (Z.pos m1 * 2 ^ 53 mod Z.pos m2)))
    as (m & e & -> & Hdm & He); try lia.
  exists m, e. repeat split; (assumption || lia).
Qed.

(** Division by a power of two only moves the exponent. *)
Lemma f64div_pow2 (m1 m2 : positive) (e1 e2 : Z) :
  Z.pos (digits2_pos m1) = 53 -> Z.pos m2 = 2 ^ 52 -> -900 <= e1 - e2 <= 900 ->
  f64div (S754_finite false m1 e1) (S754_finite false m2 e2) =
  S754_finite false m1 (e1 - e2 - 52).
Proof.
  intros Hd1 Hm2 He.
  assert (Hd2 : Z.pos (digits2_pos m2) = 53) by (apply digits2_unique; rewrite Hm2; lia).
  unfold f64div, SFdiv, SFdiv_core_binary. simpl Zdigits2.
  rewrite Hd1, Hd2, fexp64.
  replace (53 + e1 - (53 + e2)) with (e1 - e2) by lia.
  rewrite Z.max_l, Z.min_l by lia.
  replace (e1 - e2 - (e1 - e2 - 53)) with 53 by lia.
  rewrite Z.shiftl_mul_pow2, div_eucl_div_mod, Hm2 by lia.
  replace (Z.pos m1 * 2 ^ 53) with (Z.pos m1~0 * 2 ^ 52)
    by (rewrite Pos2Z.inj_xO; change (2 ^ 53) with (2 * 2 ^ 52); lia).
  rewrite Z.div_mul, Z.mod_mul by lia.
  change (new_location (2 ^ 52) 0) with loc_Exact. simpl xorb.
  rewrite binary_round_aux_even by (assumption || lia).
  f_equal. lia.
Qed.

(** Addition of normal numbers gives a normal number. *)
Lemma f64add_normal (lo1 hi1 lo2 hi2 : Z) (x y : float64) :
  normal64 lo1 hi1 x -> normal64 lo2 hi2 y ->
  -900 <= lo1 -> -900 <= lo2 -> hi1 <= 900 -> hi2 <= 900 ->
  normal64 (Z.max lo1 lo2) (Z.max hi1 hi2 + 2) (f64add x y).
Proof.
  intros (m1 & e1 & -> & Hd1 & He1) (m2 & e2 & -> & Hd2 & He2) Hl1 Hl2 Hh1 Hh2.
  unfold f64add, SFadd. simpl cond_Zopp.
  set (ez := Z.min e1 e2).
  destruct (shl_align_value m1 e1 ez ltac:(lia)) as [Hv1 _].
  destruct (shl_align_value m2 e2 ez ltac:(lia)) as [Hv2 _].
  set (a1 := fst (shl_align m1 e1 ez)) in *.
  set (a2 := fst (shl_align m2 e2 ez)) in *.
  change (Z.pos a1 + Z.pos a2) with (Z.pos (a1 + a2)).
  unfold binary_normalize, binary_round.
  pose proof (digits2_bounds m1) as Hb1. pose proof (digits2_bounds m2) as Hb2.
  rewrite Hd1 in Hb1. rewrite Hd2 in Hb2. change (53 - 1) with 52 in *.
  set (em := Z.max e1 e2).
  assert (Hem : -900 <= ez /\ ez <= em /\ em <= 900 /\ Z.max lo1 lo2 <= em <= Z.max hi1 hi2)
    by (subst ez em; lia).
  assert (Hsum : 2 ^ (52 + em - ez) <= Z.pos (a1 + a2) < 2 ^ (54 + em - ez)).
  { rewrite Pos2Z.inj_add, Hv1, Hv2.
    assert (H1 : 0 < 2 ^ (e1 - ez)) by (apply Z.pow_pos_nonneg; lia).
    assert (H2 : 0 < 2 ^ (e2 - ez)) by (apply Z.pow_pos_nonneg; lia).
    assert (Hm : 2 ^ (em - ez) = 2 ^ (e1 - ez) \/ 2 ^ (em - ez) = 2 ^ (e2 - ez)).
    { subst em. destruct (Z.max_spec e1 e2) as [[_ ->] | [_ ->]]; auto. }
    assert (Hle1 : 2 ^ (e1 - ez) <= 2 ^ (em - ez)) by (apply Z.pow_le_mono_r; lia).
    assert (Hle2 : 2 ^ (e2 - ez) <= 2 ^ (em - ez)) by (apply Z.pow_le_mono_r; lia).
    replace (52 + em - ez) with (52 + (em - ez)) by lia.
    replace (54 + em - ez) with (54 + (em - ez)) by lia.
    rewrite !Z.pow_add_r by lia.
    change (2 ^ 54) with (2 * 2 ^ 53).
    set (A := 2 ^ (e1 - ez)) in *. set (B := 2 ^ (e2 - ez)) in *.
    set (P := 2 ^ (em - ez)) in *.
    assert (U1 : Z.pos m1 * A < 2 ^ 53 * P).
    { apply Z.lt_le_trans with (2 ^ 53 * A);
        [apply Z.mul_lt_mono_pos_r; lia | apply Z.mul_le_mono_nonneg_l; lia]. }
    assert (U2 : Z.pos m2 * B < 2 ^ 53 * P).
    { apply Z.lt_le_trans with (2 ^ 53 * B);
        [apply Z.mul_lt_mono_pos_r; lia | apply Z.mul_le_mono_nonneg_l; lia]. }
    assert (L1 : 2 ^ 52 * A <= Z.pos m1 * A) by (apply Z.mul_le_mono_nonneg_r; lia).
    assert (L2 : 2 ^ 52 * B <= Z.pos m2 * B) by (apply Z.mul_le_mono_nonneg_r; lia).
    assert (N1 : 0 <= 2 ^ 52 * A) by lia.
    assert (N2 : 0 <= 2 ^ 52 * B) by lia.
    split; [destruct Hm as [-> | ->]; lia | lia]. }
  set (ds := Z.pos (digits2_pos (a1 + a2))).
  pose proof (digits2_bounds (a1 + a2)) as Hbs. fold ds in Hbs.
  assert (Hds : 53 + em - ez <= ds <= 54 + em - ez).
  { split.
    - destruct (Z_lt_le_dec ds (53 + em - ez)) as [Hlt |]; [| lia].
      assert (2 ^ ds <= 2 ^ (52 + em - ez)) by (apply Z.pow_le_mono_r; lia). lia.
    - destruct (Z_lt_le_dec (54 + em - ez) ds) as [Hgt |]; [| lia].
      assert (2 ^ (54 + em - ez) <= 2 ^ (ds - 1)) by (apply Z.pow_le_mono_r; lia). lia. }
  assert (Hdsdef : Z.pos (digits2_pos (a1 + a2)) = ds) by reflexivity.
  clearbody ds em a1 a2. clearbody ez.
  rewrite fexp64, (Z.max_l (ds + ez - 53)) by lia.
  assert (Hal : shl_align (a1 + a2) ez (ds + ez - 53) = (a1 + a2, ez)%positive).
  { unfold shl_align. destruct (ds + ez - 53 - ez) as [| n | n] eqn:Hn; try lia; reflexivity. }
  rewrite Hal.
  destruct (binary_round_aux_normal false (a1 + a2) ez loc_Exact)
    as (m & e & -> & Hdm & He); rewrite ?Hdsdef in *; try lia.
  exists m, e. repeat split; [assumption | lia | lia].
Qed.

(** ** The verb [%f] *)

Lemma roundHalfEven_nearest (num den : Z) :
  0 <= num -> 0 < den ->
  2 * Z.abs (roundHalfEven num den * den - num) <= den
  /\ 0 <= roundHalfEven num den.
Proof.
  intros Hn Hd. unfold roundHalfEven.
  pose proof (Z.div_mod num den ltac:(lia)) as Hdm.
  pose proof (Z.mod_pos_bound num den Hd) as Hr.
  assert (Hq : 0 <= num / den) by (apply Z.div_pos; lia).
  set (q := num / den) in *. set (r := num mod den) in *. clearbody q r.
  assert (E1 : q * den - num = - r) by lia.
  assert (E2 : (q + 1) * den - num = den - r) by lia.
  destruct (Z.compare_spec (2 * r) den) as [Hc | Hc | Hc].
  - destruct (Z.even q); rewrite ?E1, ?E2; split; lia.
  - rewrite E1. split; lia.
  - rewrite E2. split; lia.
Qed.

Lemma roundHalfEven_scale (c num den : Z) :
  0 < c -> 0 < den -> roundHalfEven (c * num) (c * den) = roundHalfEven num den.
Proof.
  intros Hc Hd. unfold roundHalfEven.
  rewrite Z.div_mul_cancel_l, Zmult_mod_distr_l by lia.
  replace (2 * (c * (num mod den))) with (c * (2 * (num mod den))) by lia.
  now rewrite <- Zmult_compare_compat_l by lia.
Qed.

Lemma scaledDigits_nearest (prec : nat) (m : positive) (e : Z) :
  nearestTo prec (scaledDigits prec m e) m e /\ 0 <= scaledDigits prec m e.
Proof.
  unfold nearestTo, scaledDigits.
  assert (Hp : 0 < 10 ^ Z.of_nat prec) by (apply Z.pow_pos_nonneg; lia).
  destruct (0 <=? e) eqn:He.
  - apply Z.leb_le in He.
    assert (0 < 2 ^ e) by (apply Z.pow_pos_nonneg; lia).
    split; [reflexivity | nia].
  - apply Z.leb_gt in He.
    assert (0 < 2 ^ (- e)) by (apply Z.pow_pos_nonneg; lia).
    apply roundHalfEven_nearest; nia.
Qed.

Lemma fmt_f1_finite (m : positive) (e : Z) :
  fmt_f 1 (S754_finite false m e) =
  pretty (scaledDigits 1 m e / 10) +:+ "." +:+ pretty (scaledDigits 1 m e mod 10).
Proof.
  unfold fmt_f, fixedPoint, padDigits, signText.
  change (10 ^ Z.of_nat 1) with 10.
  rewrite Z.mod_mod by lia. reflexivity.
Qed.

Lemma normal64_renders (lo hi : Z) (x : float64) (suffix : string) :
  normal64 lo hi x -> rendersRounded x suffix (fmt_f 0 x +:+ suffix).
Proof.
  intros (m & e & -> & _). exists (scaledDigits 0 m e), m, e.
  destruct (scaledDigits_nearest 0 m e) as [Hn Hp].
  repeat split; assumption.
Qed.

(** ** [formatSize] *)

Lemma formatSize_loop_spec (j : nat) :
  forall (fuel : nat) (n div exp : Z),
    (j < fuel)%nat -> 0 <= n -> ((0 < j)%nat -> 1024 ^ Z.of_nat j <= n) ->
    n < 1024 ^ (Z.of_nat j + 1) -> 0 < div -> div * 1024 ^ Z.of_nat j <= maxInt64 ->
    formatSize_loop fuel n div exp = (div * 1024 ^ Z.of_nat j, exp + Z.of_nat j).
Proof.
  induction j as [| j IH]; intros fuel n div exp Hf Hn Hlo Hhi Hd Hmax;
    (destruct fuel as [| fuel]; [lia |]); simpl formatSize_loop; unfold unit_.
  - change (1024 ^ (Z.of_nat 0 + 1)) with 1024 in Hhi.
    destruct (1024 <=? n) eqn:Hc; [apply Z.leb_le in Hc; lia |].
    f_equal; simpl; lia.
  - assert (Hp : 0 < 1024 ^ Z.of_nat j) by (apply Z.pow_pos_nonneg; lia).
    assert (Hs : 1024 ^ Z.of_nat (S j) = 1024 * 1024 ^ Z.of_nat j).
    { rewrite Nat2Z.inj_succ, Z.pow_succ_r by lia. reflexivity. }
    assert (Hs' : 1024 ^ (Z.of_nat (S j) + 1) = 1024 * 1024 ^ (Z.of_nat j + 1)).
    { rewrite Nat2Z.inj_succ. replace (Z.succ (Z.of_nat j) + 1) with (Z.succ (Z.of_nat j + 1)) by lia.
      rewrite Z.pow_succ_r by lia. reflexivity. }
    specialize (Hlo ltac:(lia)). rewrite Hs in Hlo, Hmax. rewrite Hs' in Hhi.
    destruct (1024 <=? n) eqn:Hc; [| apply Z.leb_gt in Hc; lia].
    rewrite Z.quot_div_nonneg by lia.
    rewrite wrap64_small by (unfold minInt64, maxInt64 in *; nia).
    rewrite IH;
      [ rewrite Hs; f_equal; lia
      | lia
      | apply Z.div_pos; lia
      | intros _; apply Z.div_le_lower_bound; lia
      | apply Z.div_lt_upper_bound; lia
      | lia
      | nia ].
Qed.

Lemma pow1024 (k : Z) : 0 <= k -> 1024 ^ k = 2 ^ (10 * k).
Proof. intros Hk. rewrite Z.pow_mul_r by lia. reflexivity. Qed.

Lemma log2_between (z a b : Z) :
  0 <= a -> 2 ^ a <= z < 2 ^ b -> a <= Z.log2 z < b.
Proof.
  intros Ha [Hlo Hhi].
  assert (Hz : 0 < z) by (pose proof (Z.pow_pos_nonneg 2 a); lia).
  split.
  - apply Z.log2_le_pow2; assumption.
  - apply Z.log2_lt_pow2; assumption.
Qed.

(** At and above one kibibyte: the unit is the one whose power of 1024 the
    size has reached, and the number printed is the quotient of the two
    [float64] values; up to 53 bits the conversion is exact, so the tenths
    printed are those nearest to [size / 1024^k]. *)
Lemma formatSize_large (j : nat) (size : Z) :
  (j < 6)%nat ->
  1024 ^ (Z.of_nat j + 1) <= size < 1024 ^ (Z.of_nat j + 2) ->
  size <= maxInt64 ->
  exists m e,
    f64div (f64 size) (f64 (1024 ^ (Z.of_nat j + 1))) = S754_finite false m e
    /\ formatSize size =
       fmt_f 1 (S754_finite false m e) +:+ " " +:+ unitOf (Z.of_nat j + 1) +:+ "iB"
    /\ (size < 2 ^ 53 ->
        scaledDigits 1 m e = roundHalfEven (10 * size) (1024 ^ (Z.of_nat j + 1))).
Proof.
  intros Hj Hs Hmax.
  rewrite !pow1024 in Hs by lia.
  pose proof (log2_between size (10 * (Z.of_nat j + 1)) (10 * (Z.of_nat j + 2))
                ltac:(lia) Hs) as HL.
  assert (Hpos : 2 ^ 10 <= 2 ^ (10 * (Z.of_nat j + 1))) by (apply Z.pow_le_mono_r; lia).
  change (2 ^ 10) with 1024 in Hpos.
  assert (Hz : 0 < size < 2 ^ 1000).
  { split; [lia |]. unfold maxInt64 in Hmax.
    assert (2 ^ 63 <= 2 ^ 1000) by (apply Z.pow_le_mono_r; lia). lia. }
  destruct (f64_normal size Hz) as [(m1 & e1 & Hf & Hd1 & He1) Hexact].
  exists m1, (e1 - 10 * (Z.of_nat j + 1)).
  assert (Hloop : formatSize_loop 7 (Z.quot size unit_) unit_ 0 =
                  (1024 ^ (Z.of_nat j + 1), Z.of_nat j)).
  { unfold unit_. rewrite Z.quot_div_nonneg by lia.
    rewrite (formatSize_loop_spec j); try lia.
    - f_equal. rewrite Z.pow_add_r by lia. lia.
    - apply Z.div_pos; lia.
    - intros _. apply Z.div_le_lower_bound; [lia |].
      rewrite pow1024 by lia. replace (10 * (Z.of_nat j + 1)) with (10 + 10 * Z.of_nat j) in Hs by lia.
      rewrite Z.pow_add_r in Hs by lia. change (2 ^ 10) with 1024 in Hs. lia.
    - apply Z.div_lt_upper_bound; [lia |].
      rewrite pow1024 by lia. replace (10 * (Z.of_nat j + 2)) with (10 + 10 * (Z.of_nat j + 1)) in Hs by lia.
      rewrite Z.pow_add_r in Hs by lia. change (2 ^ 10) with 1024 in Hs. lia.
    - rewrite pow1024 by lia. unfold maxInt64.
      assert (2 ^ (10 * Z.of_nat j) <= 2 ^ 50) by (apply Z.pow_le_mono_r; lia).
      lia. }
  assert (Hdiv : exists m2, f64 (1024 ^ (Z.of_nat j + 1)) =
                   S754_finite false m2 (10 * (Z.of_nat j + 1) - 52)
                   /\ Z.pos m2 = 2 ^ 52).
  { do 6 (destruct j as [| j]; [eexists; split; [vm_compute; reflexivity | reflexivity] |]).
    lia. }
  destruct Hdiv as (m2 & Hf2 & Hm2).
  assert (Hq : f64div (f64 size) (f64 (1024 ^ (Z.of_nat j + 1))) =
               S754_finite false m1 (e1 - 10 * (Z.of_nat j + 1))).
  { rewrite Hf, Hf2, (f64div_pow2 m1 m2) by (assumption || lia). f_equal. lia. }
  repeat split.
  - exact Hq.
  - unfold formatSize.
    replace (size <? unit_) with false by (symmetry; apply Z.ltb_ge; unfold unit_; lia).
    rewrite Hloop, Hq. do 2 f_equal.
    do 6 (destruct j as [| j]; [reflexivity |]). lia.
  - intros Hsmall. destruct (Hexact Hsmall) as (m & Hfm & _ & Hval).
    rewrite Hf in Hfm. injection Hfm as <- ->.
    assert (Hl53 : Z.log2 size < 53) by (apply Z.log2_lt_pow2; lia).
    unfold scaledDigits. change (10 ^ Z.of_nat 1) with 10.
    replace (0 <=? Z.log2 size - 52 - 10 * (Z.of_nat j + 1)) with false
      by (symmetry; apply Z.leb_gt; lia).
    rewrite Hval, pow1024 by lia.
    replace (- (Z.log2 size - 52 - 10 * (Z.of_nat j + 1)))
      with (52 - Z.log2 size + 10 * (Z.of_nat j + 1)) by lia.
    rewrite Z.pow_add_r by lia.
    replace (size * 2 ^ (52 - Z.log2 size) * 10)
      with (2 ^ (52 - Z.log2 size) * (10 * size)) by lia.
    apply roundHalfEven_scale; apply Z.pow_pos_nonneg; lia.
Qed.

(** ** [formatTime] *)

Lemma f64_int_normal (z : Z) :
  0 < z <= maxInt64 -> normal64 (-52) 11 (f64 z).
Proof.
  intros Hz. unfold maxInt64 in Hz.
  assert (H1000 : 2 ^ 63 <= 2 ^ 1000) by (apply Z.pow_le_mono_r; lia).
  destruct (f64_normal z ltac:(lia)) as [Hn _].
  pose proof (log2_between z 0 63 ltac:(lia) ltac:(simpl; lia)) as HL.
  eapply normal64_weaken; [| | exact Hn]; lia.
Qed.

(** The quotient-and-remainder sum of [Minutes] and [Hours] is a normal
    number once the duration has reached the unit. *)
Lemma unit_count_normal (d u : Z) :
  0 < u <= maxInt64 -> u <= d <= maxInt64 ->
  normal64 (-52) 14
    (f64add (f64 (Z.quot d u)) (f64div (f64 (Z.rem d u)) (f64 u))).
Proof.
  intros Hu Hd.
  rewrite Z.quot_div_nonneg, Z.rem_mod_nonneg by lia.
  assert (Hq : 0 < d / u <= maxInt64).
  { split.
    - apply Z.div_str_pos; lia.
    - apply Z.le_trans with d; [| lia]. apply Z.div_le_upper_bound; nia. }
  pose proof (Z.mod_pos_bound d u ltac:(lia)) as Hr.
  pose proof (f64_int_normal (d / u) Hq) as Hnq.
  pose proof (f64_int_normal u Hu) as Hnu.
  destruct (Z.eq_dec (d mod u) 0) as [-> | Hne].
  - destruct Hnq as (mq & eq & -> & Hdq & Heq).
    destruct Hnu as (mu & eu & -> & _).
    exists mq, eq. repeat split; [assumption | lia | lia].
  - pose proof (f64_int_normal (d mod u) ltac:(lia)) as Hnr.
    pose proof (f64div_normal _ _ _ _ _ _ Hnr Hnu ltac:(lia) ltac:(lia)) as Hdiv.
    pose proof (f64add_normal _ _ _ _ _ _ Hnq Hdiv
                  ltac:(lia) ltac:(lia) ltac:(lia) ltac:(lia)) as Hadd.
    eapply normal64_weaken; [| | exact Hadd]; lia.
Qed.

Lemma Minutes_normal (d : Z) :
  Minute <= d <= maxInt64 -> normal64 (-52) 14 (Minutes d).
Proof.
  intros Hd. unfold Minutes.
  change (60 * 1000000000) with Minute.
  apply unit_count_normal; [vm_compute; split; [reflexivity | discriminate] | exact Hd].
Qed.

Lemma Hours_normal (d : Z) :
  Hour <= d <= maxInt64 -> normal64 (-52) 14 (Hours d).
Proof.
  intros Hd. unfold Hours.
  change (60 * 60 * 1000000000) with Hour.
  apply unit_count_normal; [vm_compute; split; [reflexivity | discriminate] | exact Hd].
Qed.

Lemma Sub_range (t u : Time) : minInt64 <= Sub t u <= maxInt64.
Proof. unfold Sub, minInt64, maxInt64. lia. Qed.

(** * The claims *)

(** C1, as amended.  For every file that a scan keeps, the key under which
    it is counted in [FilesByExtension] and [SizeByExtension] is the suffix
    of its name that starts at the last dot, the dot included, as
    [strings.ToLower] returns it: for a suffix of ASCII bytes, with
    ['A'..'Z'] replaced by ['a'..'z'] and every other byte kept ("a.TXT" and
    "b.txt" both fall under ".txt").  The key is "no_extension" when the
    name has no dot; the two maps hold these keys and no others. *)
Theorem C1_extension_key {E : GoEnv} (fl : Flags) (lstat : string + FsNode)
    (f : FileInfo) :
  In f (files (fst (scan fl lstat))) ->
  let c := fst (scan fl lstat) in
  let r := analyzeFiles (files c) (totalSize c) (directorySizes c) (daysUnused fl) in
  is_Some (FilesByExtension r !! Ext f)
  /\ is_Some (SizeByExtension r !! Ext f)
  /\ (forall p suffix,
        Path f = p +:+ "." +:+ suffix -> allChars plainByte suffix = true ->
        ToLower ("." +:+ suffix) <> ""%string ->
        Ext f = ToLower ("." +:+ suffix))
  /\ (forall p suffix,
        Path f = p +:+ "." +:+ suffix -> allChars plainByte suffix = true ->
        allChars isASCII suffix = true ->
        Ext f = "." +:+ lowerASCII suffix)
  /\ (forall d name,
        Path f = d +:+ name -> dirPrefix d -> allChars plainByte name = true ->
        Ext f = "no_extension"%string)
  /\ (forall k,
        is_Some (FilesByExtension r !! k) <-> exists g, In g (files c) /\ Ext g = k)
  /\ (forall k,
        is_Some (SizeByExtension r !! k) <-> exists g, In g (files c) /\ Ext g = k).
Proof.
  intros Hf c r.
  assert (Hkeys : forall val k,
    is_Some (tally Ext val (files c) ∅ !! k) <-> exists g, In g (files c) /\ Ext g = k).
  { intros val k. rewrite tally_lookup_is_Some, lookup_empty.
    split; [intros [[x Hx] | H]; [discriminate | exact H] | now right]. }
  assert (Hext : Ext f = extensionOf (Path f)).
  { subst c. rewrite scan_collect in Hf. simpl fst in Hf.
    pose proof (collected_floor (minSize fl) (rootCalls (dir fl) lstat)) as Hall.
    rewrite List.Forall_forall in Hall. exact (proj2 (Hall f Hf)). }
  subst r. rewrite analyzeFiles_fields. simpl.
  repeat split.
  - apply Hkeys. eauto.
  - apply Hkeys. eauto.
  - intros p suffix Hp Hs Hne. rewrite Hext, Hp. unfold extensionOf.
    rewrite filepath_Ext_dot by exact Hs.
    apply String.eqb_neq in Hne. now rewrite Hne.
  - intros p suffix Hp Hs Ha. rewrite Hext, Hp. now apply extensionOf_ascii.
  - intros d name Hp Hd Hn. rewrite Hext, Hp. unfold extensionOf.
    rewrite filepath_Ext_none by assumption. reflexivity.
  - apply Hkeys.
  - apply Hkeys.
  - apply Hkeys.
  - apply Hkeys.
Qed.

Lemma C1_extension_key_witness :
  In sampleRecord (files (fst (scan (E := refEnv) sampleFlags (inr sampleTree))))
  /\ (forall p suffix,
        Path sampleRecord = p +:+ "." +:+ suffix -> allChars plainByte suffix = true ->
        allChars isASCII suffix = true ->
        Ext sampleRecord = "." +:+ lowerASCII suffix).
Proof.
  assert (H : In sampleRecord (files (fst (scan (E := refEnv) sampleFlags (inr sampleTree))))).
  { vm_compute. left. reflexivity. }
  split; [exact H |].
  exact (proj1 (proj2 (proj2 (proj2
    (C1_extension_key (E := refEnv) sampleFlags (inr sampleTree) sampleRecord H))))).
Defined.

(** C1 as stated fails: the two files are counted under ".txt", and no
    key "txt" exists. *)
Lemma C1_counterexample :
  let c := fst (scan (E := refEnv) sampleFlags (inr sampleTree)) in
  let r := analyzeFiles (E := refEnv) (files c) (totalSize c) (directorySizes c) 30 in
  map Ext (files c) = [".txt"; ".txt"]%string
  /\ FilesByExtension r !! "txt"%string = None
  /\ SizeByExtension r !! "txt"%string = None
  /\ FilesByExtension r !! ".txt"%string = Some 2
  /\ SizeByExtension r !! ".txt"%string = Some 300.
Proof. vm_compute. repeat split. Qed.

(** X1.  The walk function swallows every error, so the branch of [main]
    for a failed walk is never taken. *)
Lemma main_never_WalkFailed {E : GoEnv} (fl : Flags) (lstat : string + FsNode) (now : Time) :
  snd (main fl lstat now) <> WalkFailed.
Proof.
  unfold main. destruct (String.eqb (dir fl) ""); [discriminate |].
  rewrite scan_collect.
  destruct (length (files _) =? 0)%nat; discriminate.
Qed.

(** C2, where the program falls short of the claim.  When the walk cannot
    start — [os.Lstat] fails on the root, or the root is a directory that
    cannot be listed — the walk function prints its diagnostic and returns
    nil, so [filepath.WalkDir] reports no error and the branch of [main]
    for a failed walk, which would abort the run, is passed by.  The run
    goes on to the test for an empty list of files and ends there, with the
    line and in the way in which the scan of an empty directory ends.  No
    summary is built and no section of the report is printed. *)
Theorem C2_walk_cannot_start {E : GoEnv} (fl : Flags) (now : Time) (cause : string) :
  dir fl <> ""%string ->
  let early :=
    (banner fl ++ [ "Error accessing " +:+ dir fl +:+ ": " +:+ cause;
                    "No files found matching the criteria." ]%string,
     NothingFound) in
  main fl (inl cause) now = early
  /\ (forall name, main fl (inr (FsDir name (Some cause) [])) now = early)
  /\ snd (main fl (inl cause) now) <> WalkFailed
  /\ (forall name,
        main fl (inr (FsDir name None [])) now =
        (banner fl ++ ["No files found matching the criteria."%string], NothingFound)).
Proof.
  intros Hdir early. apply String.eqb_neq in Hdir.
  assert (H1 : main fl (inl cause) now = early)
    by (unfold main; rewrite Hdir; reflexivity).
  split; [exact H1 |].
  split; [intros name; unfold main; rewrite Hdir; reflexivity |].
  split; [rewrite H1; discriminate |].
  intros name. unfold main. rewrite Hdir. reflexivity.
Qed.

Lemma C2_walk_cannot_start_witness :
  dir sampleFlags <> ""%string
  /\ main (E := refEnv) sampleFlags (inl "lstat .: no such file or directory"%string) 0 =
     (banner sampleFlags
        ++ [ "Error accessing .: lstat .: no such file or directory";
             "No files found matching the criteria." ]%string,
      NothingFound).
Proof.
  assert (H : dir sampleFlags <> ""%string) by discriminate.
  split; [exact H |].
  exact (proj1 (C2_walk_cannot_start (E := refEnv) sampleFlags 0
                  "lstat .: no such file or directory"%string H)).
Defined.

(** C3.  A file below the size floor contributes to nothing: the scan ends
    in the collector it would end in had the walk never met such a file,
    so the summary is the same; and every record that is kept, hence every
    record of the two rankings, has a size of at least the floor, and
    [TotalFiles] counts the kept records only. *)
Theorem C3_size_floor {E : GoEnv} {ES : GoEnvSpec E} (fl : Flags)
    (lstat : string + FsNode) :
  let c := fst (scan fl lstat) in
  let r := analyzeFiles (files c) (totalSize c) (directorySizes c) (daysUnused fl) in
  let others :=
    filter (fun pv => negb (belowFloor (minSize fl) pv)) (rootCalls (dir fl) lstat) in
  c = collect (minSize fl) others emptyCollector
  /\ files c = omap (kept (minSize fl)) (rootCalls (dir fl) lstat)
  /\ Forall (fun f => minSize fl <= Size f) (files c)
  /\ Forall (fun f => minSize fl <= Size f) (LargestFiles r)
  /\ Forall (fun f => minSize fl <= Size f) (OldestFiles r)
  /\ TotalFiles r = Z.of_nat (length (files c)).
Proof.
  intros c r others. subst c r others.
  rewrite scan_collect. simpl fst.
  set (cs := rootCalls (dir fl) lstat).
  assert (Hfloor : Forall (fun f => minSize fl <= Size f)
                     (files (collect (minSize fl) cs emptyCollector))).
  { eapply Forall_impl; [apply collected_floor |]. intros f Hf. exact (proj1 Hf). }
  rewrite analyzeFiles_fields. simpl.
  repeat split.
  - apply collect_drop_belowFloor.
  - now rewrite collect_files.
  - exact Hfloor.
  - eapply Permutation_Forall; [apply Slice_perm | exact Hfloor].
  - eapply Permutation_Forall; [apply Slice_perm | exact Hfloor].
Qed.

Lemma C3_size_floor_witness :
  GoEnvSpec refEnv
  /\ Forall (fun f => minSize sampleFlags <= Size f)
       (LargestFiles
          (let c := fst (scan (E := refEnv) sampleFlags (inr sampleTree)) in
           analyzeFiles (E := refEnv) (files c) (totalSize c) (directorySizes c)
             (daysUnused sampleFlags))).
Proof.
  split; [exact refEnv_spec |].
  exact (proj1 (proj2 (proj2 (proj2
    (C3_size_floor (E := refEnv) (ES := refEnv_spec) sampleFlags (inr sampleTree)))))).
Defined.

(** A root that holds one file of 500,000 bytes, scanned with the default
    floor of 1,000,000: nothing is kept and the run says so. *)
Example one_small_file :
  let fl := {| dir := "."; top := 10; minSize := 1000000; daysUnused := 30 |} in
  let tree := FsDir "." None
                [FsFile "half.bin" (inr {| st_size := 500000; st_modTime := Hour |})] in
  files (fst (scan (E := refEnv) fl (inr tree))) = []
  /\ main (E := refEnv) fl (inr tree) (2 * Hour) =
     (banner fl ++ ["No files found matching the criteria."%string], NothingFound).
Proof. vm_compute. split; reflexivity. Qed.

Lemma sum_ones (fs : list FileInfo) :
  foldr Z.add 0 (map (fun _ : FileInfo => 1) fs) = Z.of_nat (length fs).
Proof. induction fs as [| f fs IH]; simpl; [reflexivity |]. rewrite IH. lia. Qed.

(** X6.  Modulo [2^64] the totals of a scan always agree. *)
Lemma totals_modulo {E : GoEnv} (fl : Flags) (lstat : string + FsNode) :
  let c := fst (scan fl lstat) in
  let r := analyzeFiles (files c) (totalSize c) (directorySizes c) (daysUnused fl) in
  wrap64 (sumValues (FilesByExtension r)) = wrap64 (TotalFiles r)
  /\ wrap64 (sumValues (SizeByExtension r)) = TotalSize r
  /\ wrap64 (sumValues (DirectorySizes r)) = TotalSize r.
Proof.
  intros c r. subst c r. rewrite scan_collect. simpl fst.
  set (cs := rootCalls (dir fl) lstat).
  rewrite analyzeFiles_fields. simpl.
  rewrite (collect_totalSize_sum (minSize fl) cs).
  rewrite collect_directorySizes, collect_files. simpl.
  set (fs := omap (kept (minSize fl)) cs).
  repeat split.
  - destruct (sumValues_tally_mod Ext (fun _ => 1) fs ∅) as [k ->].
    rewrite sumValues_empty, wrap64_plus_multiple, sum_ones. reflexivity.
  - destruct (sumValues_tally_mod Ext Size fs ∅) as [k ->].
    now rewrite sumValues_empty, wrap64_plus_multiple.
  - destruct (sumValues_tally_mod (fun f => filepath_Dir (Path f)) Size fs ∅) as [k ->].
    now rewrite sumValues_empty, wrap64_plus_multiple.
Qed.

(** C4, as amended.  For every scan whose kept files have non-negative
    sizes that add up to at most [2^63 - 1] bytes, and are at most
    [2^63 - 1] in number, the totals are conserved: the values of
    [FilesByExtension] add up to [TotalFiles], and the values of
    [SizeByExtension] and of [DirectorySizes] both add up to
    [TotalSize]. *)
Theorem C4_totals_conserved {E : GoEnv} (fl : Flags) (lstat : string + FsNode) :
  let c := fst (scan fl lstat) in
  let r := analyzeFiles (files c) (totalSize c) (directorySizes c) (daysUnused fl) in
  Forall (fun f => 0 <= Size f) (files c) ->
  sumSizes (files c) <= maxInt64 ->
  Z.of_nat (length (files c)) <= maxInt64 ->
  sumValues (FilesByExtension r) = TotalFiles r
  /\ sumValues (SizeByExtension r) = TotalSize r
  /\ TotalSize r = sumValues (DirectorySizes r)
  /\ TotalSize r = sumSizes (files c).
Proof.
  intros c r. subst c r. rewrite scan_collect. simpl fst.
  set (cs := rootCalls (dir fl) lstat).
  rewrite analyzeFiles_fields. simpl.
  rewrite (collect_totalSize_sum (minSize fl) cs).
  rewrite collect_directorySizes, collect_files. simpl.
  set (fs := omap (kept (minSize fl)) cs).
  intros Hpos Hsum Hlen.
  assert (Hnn : 0 <= sumSizes fs).
  { clear -Hpos. unfold sumSizes. induction Hpos; simpl; lia. }
  pose proof (sum_ones fs) as Hones.
  rewrite (wrap64_small (sumSizes fs)) by (unfold minInt64, maxInt64 in *; lia).
  repeat split.
  - destruct (sumValues_tally_exact Ext (fun _ => 1) fs ∅) as [-> _].
    + apply map_Forall_empty.
    + apply List.Forall_forall. intros; lia.
    + rewrite sumValues_empty, Hones. lia.
    + rewrite sumValues_empty, Hones. lia.
  - destruct (sumValues_tally_exact Ext Size fs ∅) as [-> _].
    + apply map_Forall_empty.
    + exact Hpos.
    + rewrite sumValues_empty. exact Hsum.
    + now rewrite sumValues_empty.
  - destruct (sumValues_tally_exact (fun f => filepath_Dir (Path f)) Size fs ∅) as [-> _].
    + apply map_Forall_empty.
    + exact Hpos.
    + rewrite sumValues_empty. exact Hsum.
    + now rewrite sumValues_empty.
Qed.

Lemma C4_totals_conserved_witness :
  let c := fst (scan (E := refEnv) sampleFlags (inr sampleTree)) in
  let r := analyzeFiles (E := refEnv) (files c) (totalSize c) (directorySizes c)
             (daysUnused sampleFlags) in
  (Forall (fun f => 0 <= Size f) (files c)
   /\ sumSizes (files c) <= maxInt64
   /\ Z.of_nat (length (files c)) <= maxInt64)
  /\ sumValues (FilesByExtension r) = TotalFiles r
  /\ sumValues (SizeByExtension r) = TotalSize r
  /\ TotalSize r = sumValues (DirectorySizes r)
  /\ TotalSize r = sumSizes (files c).
Proof.
  intros c r.
  assert (H1 : Forall (fun f => 0 <= Size f) (files c)).
  { vm_compute. repeat constructor; discriminate. }
  assert (H2 : sumSizes (files c) <= maxInt64) by (vm_compute; discriminate).
  assert (H3 : Z.of_nat (length (files c)) <= maxInt64) by (vm_compute; discriminate).
  split; [auto |].
  exact (C4_totals_conserved (E := refEnv) sampleFlags (inr sampleTree) H1 H2 H3).
Defined.

(** C4 as stated fails when the sizes overflow [int64]: two files of
    [2^62] bytes wrap [TotalSize] to [-2^63], while their extensions hold
    [2^62] bytes each. *)
Lemma C4_counterexample :
  let c := fst (scan (E := refEnv) sampleFlags (inr hugeTree)) in
  let r := analyzeFiles (E := refEnv) (files c) (totalSize c) (directorySizes c)
             (daysUnused sampleFlags) in
  TotalSize r = - 2 ^ 63
  /\ sumValues (SizeByExtension r) = 2 ^ 63
  /\ sumValues (SizeByExtension r) <> TotalSize r.
Proof. vm_compute. repeat split. discriminate. Qed.

Lemma StronglySorted_impl {A : Type} (R1 R2 : A -> A -> Prop) (l : list A) :
  (forall x y, R1 x y -> R2 x y) -> StronglySorted R1 l -> StronglySorted R2 l.
Proof.
  intros HR. induction 1 as [| x l Hl IH Hx]; constructor; [exact IH |].
  eapply List.Forall_impl; [| exact Hx]. intros y. apply HR.
Qed.

(** In a list in order, an element is in relation with every later one. *)
Lemma StronglySorted_lookup {A : Type} (R : A -> A -> Prop) (l : list A)
    (i j : nat) (x y : A) :
  StronglySorted R l -> (i < j)%nat -> l !! i = Some x -> l !! j = Some y -> R x y.
Proof.
  intros Hl. revert i j. induction Hl as [| z l Hl IH Hz]; intros i j Hij Hi Hj.
  - discriminate.
  - destruct j as [| j]; [lia |]. simpl in Hj. destruct i as [| i]; simpl in Hi.
    + injection Hi as <-. rewrite List.Forall_forall in Hz. apply Hz.
      apply list_elem_of_In. eapply list_elem_of_lookup_2. exact Hj.
    + apply (IH i j); [lia | exact Hi | exact Hj].
Qed.

(** C5, as amended.  [LargestFiles] and [OldestFiles] are rearrangements of
    the collected records, the first in order of non-increasing size, the
    second in order of non-decreasing [LastUsed]; a zero timestamp is
    ordered as the instant it denotes, so no record with a later time
    stands before it.  The order among records with equal keys is left
    open. *)
Theorem C5_rankings_sorted {E : GoEnv} {ES : GoEnvSpec E} (fs : list FileInfo)
    (total : Z) (dirSizes : gmap string Z) (days : Z) :
  let r := analyzeFiles fs total dirSizes days in
  Permutation fs (LargestFiles r)
  /\ StronglySorted (fun x y => Size y <= Size x) (LargestFiles r)
  /\ Permutation fs (OldestFiles r)
  /\ StronglySorted (fun x y => LastUsed x <= LastUsed y) (OldestFiles r)
  /\ (forall i j x y,
        (i < j)%nat -> OldestFiles r !! i = Some x -> OldestFiles r !! j = Some y ->
        IsZero (LastUsed y) = true -> LastUsed x <= zeroTime).
Proof.
  intros r. subst r. rewrite analyzeFiles_fields. simpl.
  assert (Hold : StronglySorted (fun x y => LastUsed x <= LastUsed y)
                   (sort_Slice byLastUsed fs)).
  { eapply StronglySorted_impl;
      [| apply (Sorted_notAfter_strong byLastUsed StrictWeak_byLastUsed);
         apply Slice_sorted, StrictWeak_byLastUsed].
    intros x y. unfold notAfter, byLastUsed, Before. intros H.
    apply Z.ltb_ge in H. exact H. }
  repeat split.
  - apply Slice_perm.
  - eapply StronglySorted_impl;
      [| apply (Sorted_notAfter_strong bySize StrictWeak_bySize);
         apply Slice_sorted, StrictWeak_bySize].
    intros x y. unfold notAfter, bySize. intros H. apply Z.ltb_ge in H. exact H.
  - apply Slice_perm.
  - exact Hold.
  - intros i j x y Hij Hi Hj Hy.
    pose proof (StronglySorted_lookup _ _ i j x y Hold Hij Hi Hj) as Hxy.
    simpl in Hxy. unfold IsZero in Hy. apply Z.eqb_eq in Hy. unfold zeroTime. lia.
Qed.

Lemma C5_rankings_sorted_witness :
  GoEnvSpec refEnv
  /\ StronglySorted (fun x y => Size y <= Size x)
       (LargestFiles (analyzeFiles (E := refEnv) thirteenFiles 0 ∅ 30)).
Proof.
  split; [exact refEnv_spec |].
  exact (proj1 (proj2
    (C5_rankings_sorted (E := refEnv) (ES := refEnv_spec) thirteenFiles 0 ∅ 30))).
Defined.

(** What is documented of [sort.Slice] and of [range] leaves the order of
    equal records open: an environment within the documentation ranks two
    files of one size in the reverse of the order of the walk, and prints
    two extensions of one count in the reverse of the order of their
    keys, which is also the order in which it ranged over them. *)
Lemma tie_order_open :
  GoEnvSpec revEnv
  /\ LargestFiles (analyzeFiles (E := revEnv) [numbered 0 5; numbered 1 5] 10 ∅ 30) =
     [numbered 1 5; numbered 0 5]
  /\ map_range (GoEnv := revEnv) twoCounts = [(".a", 5); (".b", 5)]%string
  /\ printSortedMap (E := revEnv) twoCounts 10 greater countText =
     ["5 files - .b"; "5 files - .a"]%string.
Proof.
  split; [| vm_compute; repeat split].
  split; simpl.
  - intros A less l. rewrite <- stableSort_perm. apply Permutation_rev.
  - intros A less l Hsw. apply StronglySorted_Sorted. now apply stableSort_sorted.
  - intros V m. symmetry. apply stableSort_perm.
Qed.

(** C5 as stated fails on thirteen files under the library's [sort.Slice].
    Its pivot is the median of the records at indices 3, 6 and 9, the one
    at index 9; the partition puts it in front, exchanges the records at
    indices 1 and 8 and those at 2 and 4, and sets the pivot down at index
    2; the two sides are then sorted by insertion.  The sort ends with the
    sizes in order, and the eight files of size 5 leave it in another
    order than the walk met them in: the ranking is not the stable one. *)
Lemma C5_counterexample :
  let r := analyzeFiles (E := goEnv) thirteenFiles 0 ∅ 30 in
  GoSort.SliceRun bySize thirteenFiles = Some (LargestFiles r)
  /\ map Path thirteenFiles =
     ["f0"; "f1"; "f2"; "f3"; "f4"; "f5"; "f6"; "f7"; "f8"; "f9"; "f10"; "f11"; "f12"]%string
  /\ map Size thirteenFiles = [5; 5; 3; 5; 7; 5; 1; 5; 9; 5; 2; 5; 5]
  /\ map Path (LargestFiles r) =
     ["f8"; "f4"; "f9"; "f3"; "f5"; "f7"; "f1"; "f0"; "f11"; "f12"; "f2"; "f10"; "f6"]%string
  /\ map Size (LargestFiles r) = [9; 7; 5; 5; 5; 5; 5; 5; 5; 5; 3; 2; 1]
  /\ withSize 5 thirteenFiles = ["f0"; "f1"; "f3"; "f5"; "f7"; "f9"; "f11"; "f12"]%string
  /\ withSize 5 (LargestFiles r) = ["f9"; "f3"; "f5"; "f7"; "f1"; "f0"; "f11"; "f12"]%string
  /\ LargestFiles r <> stableSort bySize thirteenFiles.
Proof. vm_compute. repeat split. discriminate. Qed.

(** In a zone without clock changes the cutoff lies [days] days of
    twenty-four hours before the clock reading, as long as the count of
    seconds stays within 64 bits. *)
Lemma cutoff_days {E : GoEnv} {EZ : FixedZone E} (now : Time) (days : Z) :
  0 <= days <= 10 ^ 14 -> 0 <= now < 2 ^ 63 * 10 ^ 9 ->
  cutoffOf now days = now - days * (24 * Hour).
Proof.
  intros Hd Hn. unfold cutoffOf. rewrite AddDate_days. unfold addDays.
  change (10 ^ 14) with 100000000000000 in Hd.
  change (24 * Hour) with 86400000000000.
  change (10 ^ 9) with 1000000000 in *.
  rewrite (wrap64_small (- days)) by (unfold minInt64, maxInt64; lia).
  pose proof (Z.div_mod now 1000000000 ltac:(lia)) as Hdm.
  assert (Hq : 0 <= now / 1000000000 < 2 ^ 63).
  { split; [apply Z.div_pos; lia | apply Z.div_lt_upper_bound; lia]. }
  rewrite wrap64_small by (unfold minInt64, maxInt64; lia).
  lia.
Qed.

Lemma refEnv_zone : FixedZone refEnv.
Proof. split. reflexivity. Qed.

(** C6, as amended.  In a zone without clock changes, with [topN >= 1] and
    with [daysUnused] between 0 and [10^14], the section of unused files
    prints the first [min topN k] of the [k] records of [OldestFiles] whose
    [LastUsed] is strictly before the clock reading less [daysUnused] days
    of twenty-four hours, in the order of [OldestFiles]; when no record is
    that old it prints the line that none was found. *)
Theorem C6_unused_section {E : GoEnv} {EZ : FixedZone E} (now : Time)
    (r : AnalysisResults) (topN days : Z) :
  1 <= topN -> 0 <= days <= 10 ^ 14 -> 0 <= now < 2 ^ 63 * 10 ^ 9 ->
  let stale := staleFiles (now - days * (24 * Hour)) (OldestFiles r) in
  unusedSection now r topN days =
    match stale with
    | [] => [noneFound]
    | _ :: _ => map (fileLine now) (firstn (Z.to_nat topN) stale)
    end
  /\ (stale <> [] ->
      length (unusedSection now r topN days) = Nat.min (Z.to_nat topN) (length stale)).
Proof.
  intros Htop Hdays Hnow stale. unfold unusedSection.
  rewrite unusedLoop_spec, (cutoff_days now days Hdays Hnow). fold stale.
  rewrite Z.sub_0_r, Z.max_r by lia.
  destruct stale as [| f stale'] eqn:Hs.
  - rewrite firstn_nil. simpl. split; [reflexivity | congruence].
  - destruct (Z.to_nat topN) as [| n] eqn:Hn; [lia |].
    simpl firstn. simpl length.
    replace (0 + Z.of_nat (S (length (firstn n stale'))) =? 0) with false
      by (symmetry; apply Z.eqb_neq; lia).
    split; [reflexivity |].
    intros _. rewrite length_map. simpl. now rewrite length_firstn.
Qed.

(** One hundred days after the zero instant, with a threshold of 30 days:
    of a file last used on day 60 and one last used on day 90 the first
    alone is listed. *)
Lemma C6_unused_section_witness :
  (FixedZone refEnv /\ 1 <= 2 /\ 0 <= 30 <= 10 ^ 14
   /\ 0 <= 100 * 24 * Hour < 2 ^ 63 * 10 ^ 9)
  /\ OldestFiles (analyzeFiles (E := refEnv) twoAges 3000000 ∅ 30) =
     [ {| Path := "old.log"; Size := 2000000; Ext := ".log"; LastUsed := 60 * 24 * Hour |};
       {| Path := "new.log"; Size := 1000000; Ext := ".log"; LastUsed := 90 * 24 * Hour |} ]
  /\ unusedSection (E := refEnv) (100 * 24 * Hour)
       (analyzeFiles (E := refEnv) twoAges 3000000 ∅ 30) 2 30 =
     match staleFiles (100 * 24 * Hour - 30 * (24 * Hour))
             (OldestFiles (analyzeFiles (E := refEnv) twoAges 3000000 ∅ 30)) with
     | [] => [noneFound]
     | _ :: _ =>
         map (fileLine (100 * 24 * Hour))
           (firstn (Z.to_nat 2)
              (staleFiles (100 * 24 * Hour - 30 * (24 * Hour))
                 (OldestFiles (analyzeFiles (E := refEnv) twoAges 3000000 ∅ 30))))
     end
  /\ staleFiles (100 * 24 * Hour - 30 * (24 * Hour))
       (OldestFiles (analyzeFiles (E := refEnv) twoAges 3000000 ∅ 30)) =
     [ {| Path := "old.log"; Size := 2000000; Ext := ".log"; LastUsed := 60 * 24 * Hour |} ].
Proof.
  assert (H1 : 1 <= 2) by lia.
  assert (H2 : 0 <= 30 <= 10 ^ 14) by (simpl; lia).
  assert (H3 : 0 <= 100 * 24 * Hour < 2 ^ 63 * 10 ^ 9) by (vm_compute; split; congruence).
  split; [auto using refEnv_zone |].
  split; [vm_compute; reflexivity |].
  split; [| vm_compute; reflexivity].
  exact (proj1 (C6_unused_section (E := refEnv) (EZ := refEnv_zone) (100 * 24 * Hour)
                  (analyzeFiles (E := refEnv) twoAges 3000000 ∅ 30) 2 30 H1 H2 H3)).
Defined.

(** C6 as stated fails for a threshold that [Time.AddDate] cannot count:
    with [daysUnused = 2^63 - 1] the seconds of the cutoff wrap around and
    the cutoff falls one day after the clock reading, so a file used an
    hour ago is listed as unused, although it is not older than the clock
    reading less that many days: the claim has the line that none was
    found printed. *)
Lemma C6_counterexample :
  let now := 1000 * 24 * Hour in
  let days := 2 ^ 63 - 1 in
  let f := {| Path := "fresh.log"; Size := 10; Ext := ".log"; LastUsed := now - Hour |} in
  let r := analyzeFiles (E := refEnv) [f] 10 ∅ days in
  0 <= days
  /\ OldestFiles r = [f]
  /\ staleFiles (now - days * (24 * Hour)) (OldestFiles r) = []
  /\ cutoffOf (E := refEnv) now days = now + 24 * Hour
  /\ unusedSection (E := refEnv) now r 1 days = [fileLine now f]
  /\ unusedSection (E := refEnv) now r 1 days <> [noneFound].
Proof. vm_compute. repeat split; discriminate. Qed.

(** C7.  A byte count below 1024 is printed as an integer followed by
    " B".  From 1024 on the text is a number with one decimal digit, a
    space, and the unit [KiB] ... [EiB] of the largest power of 1024 that
    the count has reached; the number is the quotient of the count by
    that power, computed in [float64] and rounded to the nearest tenth,
    which up to [2^53] bytes is the tenth nearest to the exact quotient. *)
Theorem C7_formatSize (size : Z) :
  0 <= size <= maxInt64 ->
  (size < 1024 -> formatSize size = pretty size +:+ " B")
  /\ (1024 <= size ->
      exists (k whole tenth : Z) (m : positive) (e : Z),
        1 <= k <= 6 /\ 1024 ^ k <= size < 1024 ^ (k + 1)
        /\ f64div (f64 size) (f64 (1024 ^ k)) = S754_finite false m e
        /\ nearestTo 1 (10 * whole + tenth) m e
        /\ 0 <= whole /\ 0 <= tenth <= 9
        /\ formatSize size =
           pretty whole +:+ "." +:+ pretty tenth +:+ " " +:+ unitOf k +:+ "iB"
        /\ (size < 2 ^ 53 ->
            10 * whole + tenth = roundHalfEven (10 * size) (1024 ^ k)))
  /\ formatSize 999 = "999 B"%string
  /\ formatSize 0 = "0 B"%string
  /\ formatSize 1000000 = "976.6 KiB"%string
  /\ formatSize 1073741824 = "1.0 GiB"%string.
Proof.
  intros Hsize. split; [| split; [| repeat split; vm_compute; reflexivity]].
  - intros Hlt. unfold formatSize, unit_.
    now replace (size <? 1024) with true by (symmetry; apply Z.ltb_lt; lia).
  - intros Hge.
    assert (Hj : exists j : nat,
              (j < 6)%nat /\ 1024 ^ (Z.of_nat j + 1) <= size < 1024 ^ (Z.of_nat j + 2)).
    { unfold maxInt64 in Hsize.
      destruct (Z_lt_le_dec size (1024 ^ 2)); [exists 0%nat; simpl; lia |].
      destruct (Z_lt_le_dec size (1024 ^ 3)); [exists 1%nat; simpl; lia |].
      destruct (Z_lt_le_dec size (1024 ^ 4)); [exists 2%nat; simpl; lia |].
      destruct (Z_lt_le_dec size (1024 ^ 5)); [exists 3%nat; simpl; lia |].
      destruct (Z_lt_le_dec size (1024 ^ 6)); [exists 4%nat; simpl; lia |].
      exists 5%nat; simpl; lia. }
    destruct Hj as (j & Hj & Hs).
    destruct (formatSize_large j size Hj Hs ltac:(lia)) as (m & e & Hq & Htext & Hexact).
    destruct (scaledDigits_nearest 1 m e) as [Hn Hp].
    set (T := scaledDigits 1 m e) in *.
    exists (Z.of_nat j + 1), (T / 10), (T mod 10), m, e.
    replace (Z.of_nat j + 1 + 1) with (Z.of_nat j + 2) by lia.
    assert (HT : 10 * (T / 10) + T mod 10 = T) by (symmetry; apply Z.div_mod; lia).
    rewrite HT.
    repeat split; try assumption; try lia.
    + apply Z.div_pos; lia.
    + apply Z.mod_pos_bound; lia.
    + pose proof (Z.mod_pos_bound T 10 ltac:(lia)). lia.
    + rewrite Htext, fmt_f1_finite. fold T.
      now rewrite !string_app_assoc.
Qed.

Lemma C7_formatSize_witness :
  0 <= 999 <= maxInt64 /\ (999 < 1024 -> formatSize 999 = pretty 999 +:+ " B").
Proof.
  assert (H : 0 <= 999 <= maxInt64) by (unfold maxInt64; lia).
  split; [exact H | exact (proj1 (C7_formatSize 999 H))].
Defined.

(** C8, as amended.  A zero timestamp is rendered as "unknown".  For any
    other, with [d] the saturating difference [now.Sub(t)], the text is
    "just now" below a minute, and otherwise "<N> minutes ago" below an
    hour, "<N> hours ago" below a day, "<N> days ago" below 30 days,
    "<N> months ago" (months of 30 days) below 365 days, and "<N> years
    ago" (years of 365 days) from there on, where [N] is the integer
    nearest to the [float64] count of units (ties go to the even one):
    90 minutes give "2 hours ago", and 400 days give "1 years ago". *)
Theorem C8_formatTime (now t : Time) :
  (IsZero t = true -> formatTime now t = "unknown"%string)
  /\ (IsZero t = false ->
      let d := Sub now t in
      (d < Minute -> formatTime now t = "just now"%string)
      /\ (Minute <= d < Hour ->
          rendersRounded (Minutes d) " minutes ago" (formatTime now t))
      /\ (Hour <= d < 24 * Hour ->
          rendersRounded (Hours d) " hours ago" (formatTime now t))
      /\ (24 * Hour <= d < 30 * 24 * Hour ->
          rendersRounded (f64div (Hours d) (f64 24)) " days ago" (formatTime now t))
      /\ (30 * 24 * Hour <= d < 365 * 24 * Hour ->
          rendersRounded (f64div (f64div (Hours d) (f64 24)) (f64 30))
            " months ago" (formatTime now t))
      /\ (365 * 24 * Hour <= d ->
          rendersRounded (f64div (f64div (Hours d) (f64 24)) (f64 365))
            " years ago" (formatTime now t)))
  /\ formatTime (1000 * 24 * Hour) (1000 * 24 * Hour - 30 * Second) = "just now"%string
  /\ formatTime (1000 * 24 * Hour) (1000 * 24 * Hour - 90 * Minute) = "2 hours ago"%string
  /\ formatTime (1000 * 24 * Hour) (1000 * 24 * Hour - 400 * 24 * Hour) = "1 years ago"%string.
Proof.
  split; [| split; [| repeat split; vm_compute; reflexivity]].
  - intros Hz. unfold formatTime. now rewrite Hz.
  - intros Hz d. pose proof (Sub_range now t) as Hr. fold d in Hr.
    assert (Hc : forall a b : Z, a <= b -> (b <? a) = false)
      by (intros a b H; apply Z.ltb_ge; exact H).
    assert (Hu : Minute = 60000000000 /\ Hour = 3600000000000) by (split; reflexivity).
    destruct Hu as [HM HH].
    pose proof (f64_int_normal 24 ltac:(unfold maxInt64; lia)) as H24.
    pose proof (f64_int_normal 30 ltac:(unfold maxInt64; lia)) as H30.
    pose proof (f64_int_normal 365 ltac:(unfold maxInt64; lia)) as H365.
    unfold formatTime. rewrite Hz. fold d.
    repeat split.
    + intros Hd. now replace (d <? Minute) with true by (symmetry; apply Z.ltb_lt; lia).
    + intros Hd. rewrite (Hc Minute d) by lia.
      replace (d <? Hour) with true by (symmetry; apply Z.ltb_lt; lia).
      eapply normal64_renders, Minutes_normal. lia.
    + intros Hd. rewrite (Hc Minute d), (Hc Hour d) by lia.
      replace (d <? 24 * Hour) with true by (symmetry; apply Z.ltb_lt; lia).
      eapply normal64_renders, Hours_normal. lia.
    + intros Hd. rewrite (Hc Minute d), (Hc Hour d), (Hc (24 * Hour) d) by lia.
      replace (d <? 30 * 24 * Hour) with true by (symmetry; apply Z.ltb_lt; lia).
      pose proof (Hours_normal d ltac:(lia)) as Hh.
      eapply normal64_renders.
      exact (f64div_normal _ _ _ _ _ _ Hh H24 ltac:(lia) ltac:(lia)).
    + intros Hd.
      rewrite (Hc Minute d), (Hc Hour d), (Hc (24 * Hour) d), (Hc (30 * 24 * Hour) d) by lia.
      replace (d <? 365 * 24 * Hour) with true by (symmetry; apply Z.ltb_lt; lia).
      pose proof (Hours_normal d ltac:(lia)) as Hh.
      pose proof (f64div_normal _ _ _ _ _ _ Hh H24 ltac:(lia) ltac:(lia)) as Hdays.
      eapply normal64_renders.
      exact (f64div_normal _ _ _ _ _ _ Hdays H30 ltac:(lia) ltac:(lia)).
    + intros Hd.
      rewrite (Hc Minute d), (Hc Hour d), (Hc (24 * Hour) d), (Hc (30 * 24 * Hour) d),
        (Hc (365 * 24 * Hour) d) by lia.
      pose proof (Hours_normal d ltac:(lia)) as Hh.
      pose proof (f64div_normal _ _ _ _ _ _ Hh H24 ltac:(lia) ltac:(lia)) as Hdays.
      eapply normal64_renders.
      exact (f64div_normal _ _ _ _ _ _ Hdays H365 ltac:(lia) ltac:(lia)).
Qed.

(** C8 as stated fails on its own example: 400 days are no less than 365
    days, so they are rendered in years, not in months. *)
Lemma C8_counterexample :
  let now := 1000 * 24 * Hour in
  let t := now - 400 * 24 * Hour in
  Sub now t = 400 * 24 * Hour
  /\ formatTime now t = "1 years ago"%string
  /\ formatTime now t <> "13 months ago"%string.
Proof. vm_compute. repeat split. discriminate. Qed.

(** With a file last used 40 days ago and one last used 10 days ago, a
    threshold of 30 days lists the first alone; with a threshold of 50
    days the section says that none was found. *)
Example unused_forty_and_ten_days :
  let now := 100 * 24 * Hour in
  let r := analyzeFiles (E := refEnv) twoAges 3000000 ∅ 30 in
  unusedSection (E := refEnv) now r 10 30 = ["1.9 MiB - old.log (Last used: 1 months ago)"]%string
  /\ unusedSection (E := refEnv) now r 10 50 = [noneFound].
Proof. vm_compute. split; reflexivity. Qed.

(** C9, as amended.  For every map, [printSortedMap] prints the first
    [min topN n] of its [n] entries in an order of non-increasing value:
    the entries printed and the ones left out are together the entries of
    the map, each once, and no entry left out has a greater value than one
    printed.  The order among entries of equal value is left open. *)
Theorem C9_grouped_section {E : GoEnv} {ES : GoEnvSpec E} (m : gmap string Z)
    (topN : Z) (format : Z -> string) :
  exists shown rest : list (string * Z),
    printSortedMap m topN greater format = map (entryLine format) shown
    /\ Permutation (shown ++ rest) (map_to_list m)
    /\ StronglySorted (fun a b => snd b <= snd a) (shown ++ rest)
    /\ length shown = Nat.min (Z.to_nat topN) (size m).
Proof.
  set (all := sortedEntries m greater).
  exists (firstn (Z.to_nat topN) all), (skipn (Z.to_nat topN) all).
  assert (Hperm : Permutation all (map_to_list m)).
  { subst all. unfold sortedEntries.
    rewrite <- (Slice_perm _ _ (map_range m)). apply range_perm. }
  rewrite firstn_skipn. repeat split.
  - unfold printSortedMap. fold all. rewrite topLoop_firstn.
    now rewrite Z.sub_0_r.
  - exact Hperm.
  - subst all. unfold sortedEntries.
    eapply StronglySorted_impl;
      [| apply (Sorted_notAfter_strong _ (StrictWeak_greater snd));
         apply Slice_sorted, (StrictWeak_greater snd)].
    intros a b. unfold notAfter, greater. intros H. apply Z.ltb_ge in H. exact H.
  - rewrite length_firstn. f_equal.
    rewrite (Permutation_length Hperm). apply length_map_to_list.
Qed.

Lemma C9_grouped_section_witness :
  GoEnvSpec refEnv
  /\ exists shown rest : list (string * Z),
       printSortedMap (E := refEnv) thirteenCounts 3 greater countText =
         map (entryLine countText) shown
       /\ Permutation (shown ++ rest) (map_to_list thirteenCounts)
       /\ StronglySorted (fun a b => snd b <= snd a) (shown ++ rest)
       /\ length shown = Nat.min (Z.to_nat 3) (size thirteenCounts).
Proof.
  split; [exact refEnv_spec |].
  exact (C9_grouped_section (E := refEnv) (ES := refEnv_spec) thirteenCounts 3 countText).
Defined.

(** C9 as stated fails on thirteen extensions: with [range] in ascending
    key order and the library's [sort.Slice], the eight extensions that
    hold five files are printed neither in the order of their keys nor in
    the order in which [range] gave them. *)
Lemma C9_counterexample :
  map_range (GoEnv := goEnv) thirteenCounts =
    [ (".a", 5); (".b", 5); (".c", 3); (".d", 5); (".e", 7); (".f", 5); (".g", 1);
      (".h", 5); (".i", 9); (".j", 5); (".k", 2); (".l", 5); (".m", 5) ]%string
  /\ GoSort.SliceRun (fun a b : string * Z => greater (snd a) (snd b))
       (map_range (GoEnv := goEnv) thirteenCounts) =
     Some (sortedEntries (E := goEnv) thirteenCounts greater)
  /\ printSortedMap (E := goEnv) thirteenCounts 13 greater countText =
     [ "9 files - .i"; "7 files - .e"; "5 files - .j"; "5 files - .d";
       "5 files - .f"; "5 files - .h"; "5 files - .b"; "5 files - .a";
       "5 files - .l"; "5 files - .m"; "3 files - .c"; "2 files - .k";
       "1 files - .g" ]%string
  /\ withValue 5 (sortedEntries (E := goEnv) thirteenCounts greater) <>
     withValue 5 (map_range (GoEnv := goEnv) thirteenCounts).
Proof. vm_compute. repeat split. discriminate. Qed.

(** C10.  With [topN <= 0] the section of the largest files and the three
    grouped sections print no entry, while the section of unused files
    still prints one entry, the first stale record, whenever a record is
    stale: its loop compares [printed] with [topN] only after a print. *)
Theorem C10_nonpositive_topN {E : GoEnv} (now : Time) (r : AnalysisResults)
    (topN days : Z) :
  topN <= 0 ->
  largestSection now r topN = []
  /\ countSection r topN = []
  /\ sizeSection r topN = []
  /\ directorySection r topN = []
  /\ unusedSection now r topN days =
     match staleFiles (cutoffOf now days) (OldestFiles r) with
     | [] => [noneFound]
     | f :: _ => [fileLine now f]
     end.
Proof.
  intros Htop.
  assert (Hnone : forall (A : Type) (render : A -> string) (xs : list A),
            topLoop render topN 0 xs = []).
  { intros A render xs. rewrite topLoop_firstn.
    replace (Z.to_nat (topN - 0)) with O by lia. reflexivity. }
  unfold largestSection, countSection, sizeSection, directorySection, printSortedMap.
  rewrite !Hnone. repeat split.
  unfold unusedSection. rewrite unusedLoop_spec.
  rewrite Z.sub_0_r, Z.max_l by lia. change (Z.to_nat 1) with 1%nat.
  destruct (staleFiles (cutoffOf now days) (OldestFiles r)) as [| f stale']; reflexivity.
Qed.

Lemma C10_nonpositive_topN_witness :
  0 <= 0
  /\ largestSection (100 * 24 * Hour)
       (analyzeFiles (E := refEnv) thirteenFiles 0 ∅ 30) 0 = []
  /\ unusedSection (E := refEnv) (100 * 24 * Hour)
       (analyzeFiles (E := refEnv) thirteenFiles 0 ∅ 30) 0 30 =
     [fileLine (100 * 24 * Hour) (numbered 0 5)].
Proof.
  assert (H : 0 <= 0) by lia.
  split; [exact H |].
  pose proof (C10_nonpositive_topN (E := refEnv) (100 * 24 * Hour)
                (analyzeFiles (E := refEnv) thirteenFiles 0 ∅ 30) 0 30 H) as T.
  split; [exact (proj1 T) | exact (proj2 (proj2 (proj2 (proj2 T))))].
Defined.

(** * Further properties *)

(** ** Tallies, key by key *)

Lemma wrap64_add_l (a b : Z) : wrap64 (wrap64 a + b) = wrap64 (a + b).
Proof.
  destruct (wrap64_multiple a) as [k ->].
  replace (a + k * 2 ^ 64 + b) with (a + b + k * 2 ^ 64) by lia.
  apply wrap64_plus_multiple.
Qed.

(** The value of a tally under a key: what the map held there, plus the
    values of the records filed under the key, wrapped. *)
Lemma tally_lookup key val (fs : list FileInfo) (m : gmap string Z) (k : string) :
  tally key val fs m !! k =
  match withKey key k fs with
  | [] => m !! k
  | _ :: _ =>
      Some (wrap64 (default 0 (m !! k) + foldr Z.add 0 (map val (withKey key k fs))))
  end.
Proof.
  revert m. induction fs as [| f fs IH]; intros m; [reflexivity |].
  change (tally key val (f :: fs) m) with (tally key val fs (addTo m (key f) (val f))).
  rewrite IH. unfold withKey. simpl List.filter.
  fold (withKey key k fs).
  destruct (String.eqb (key f) k) eqn:Hk.
  - apply String.eqb_eq in Hk. subst k. unfold addTo. rewrite lookup_insert_eq.
    simpl default.
    destruct (withKey key (key f) fs) as [| g gs]; simpl.
    + now rewrite Z.add_0_r.
    + f_equal. rewrite wrap64_add_l. f_equal. lia.
  - apply String.eqb_neq in Hk. unfold addTo.
    rewrite lookup_insert_ne by exact Hk. reflexivity.
Qed.

Lemma sum_sizes_map (fs : list FileInfo) : foldr Z.add 0 (map Size fs) = sumSizes fs.
Proof. reflexivity. Qed.

(** X7.  The loop of [analyzeFiles] over the records: an extension has an
    entry in [FilesByExtension] and in [SizeByExtension] exactly when some
    record carries it, and the entries are the number of those records and
    the sum of their sizes, each wrapped to 64 bits; the count is exact
    whenever the number of records fits an [int]. *)
Theorem extension_totals {E : GoEnv} (fs : list FileInfo) (total : Z)
    (ds : gmap string Z) (days : Z) (k : string) :
  let r := analyzeFiles fs total ds days in
  let g := withKey Ext k fs in
  FilesByExtension r !! k =
    match g with [] => None | _ :: _ => Some (wrap64 (Z.of_nat (length g))) end
  /\ SizeByExtension r !! k =
    match g with [] => None | _ :: _ => Some (wrap64 (sumSizes g)) end
  /\ (Z.of_nat (length fs) <= maxInt64 ->
      wrap64 (Z.of_nat (length g)) = Z.of_nat (length g)).
Proof.
  intros r g. subst r. rewrite analyzeFiles_fields. simpl.
  rewrite !tally_lookup, lookup_empty. fold g. simpl default.
  rewrite sum_ones, sum_sizes_map.
  repeat split.
  intros Hlen. apply wrap64_small.
  assert (length g <= length fs)%nat by (subst g; unfold withKey; apply filter_length_le).
  unfold minInt64, maxInt64 in *. lia.
Qed.

(** X8.  The directory totals of a scan: a directory has an entry exactly
    when it is [filepath.Dir] of the path of a kept file, and the entry is
    the wrapped sum of the sizes of those files alone; the files of a
    directory further down are counted under their own directory and not
    under this one. *)
Theorem directory_totals {E : GoEnv} (fl : Flags) (lstat : string + FsNode)
    (d : string) :
  let c := fst (scan fl lstat) in
  let r := analyzeFiles (files c) (totalSize c) (directorySizes c) (daysUnused fl) in
  let g := withKey (fun f => filepath_Dir (Path f)) d (files c) in
  DirectorySizes r !! d =
    match g with [] => None | _ :: _ => Some (wrap64 (sumSizes g)) end.
Proof.
  intros c r g. subst c r g. rewrite scan_collect. simpl fst.
  rewrite analyzeFiles_fields. simpl DirectorySizes.
  rewrite collect_directorySizes, collect_files. simpl.
  rewrite tally_lookup, lookup_empty. reflexivity.
Qed.

(** ** What the walk prints *)

Section OutputFacts.
Context {E : GoEnv}.

Lemma visit_out (m : Z) (pv : string * Visit) (c : Collector) :
  out (fst (visit m (fst pv) (snd pv) c)) =
  out c ++ match diagnostic pv with Some line => [line] | None => [] end.
Proof.
  destruct pv as [path v]. unfold diagnostic. simpl fst. simpl snd.
  destruct v as [[name [err | info]| name readErr dirs] | d err]; simpl;
    rewrite ?app_nil_r; try reflexivity.
  destruct (st_size info <? m); simpl; now rewrite ?app_nil_r.
Qed.

Lemma collect_out (m : Z) (cs : list (string * Visit)) (c : Collector) :
  out (collect m cs c) = out c ++ omap diagnostic cs.
Proof.
  revert c. induction cs as [| pv cs IH]; intros c; simpl.
  - now rewrite app_nil_r.
  - change (collect m (pv :: cs) c)
      with (collect m cs (fst (visit m (fst pv) (snd pv) c))).
    rewrite IH, visit_out.
    destruct (diagnostic pv) as [line |]; rewrite <- app_assoc; reflexivity.
Qed.

Lemma diagnostic_not_kept (m : Z) (pv : string * Visit) (line : string) :
  diagnostic pv = Some line -> kept m pv = None.
Proof.
  destruct pv as [path v]. unfold diagnostic, kept. simpl fst. simpl snd.
  destruct v as [[name [err | info]| name readErr dirs] | d err]; simpl;
    try reflexivity; discriminate.
Qed.
End OutputFacts.

(** X3.  During the walk the program prints one line for each call that
    reports a failure — an entry that cannot be reached, a directory that
    cannot be listed, a file whose [Info] fails — in the order of the
    walk, and nothing else: directories, kept files and files below the
    floor are silent.  A call that prints a line adds no record, so each
    call accounts for at most one line or one record. *)
Theorem walk_output {E : GoEnv} (fl : Flags) (lstat : string + FsNode) :
  let cs := rootCalls (dir fl) lstat in
  out (fst (scan fl lstat)) = omap diagnostic cs
  /\ (length (out (fst (scan fl lstat))) + length (files (fst (scan fl lstat)))
      <= length cs)%nat
  /\ (forall pv line, diagnostic pv = Some line -> kept (minSize fl) pv = None).
Proof.
  intros cs. rewrite scan_collect. simpl fst. fold cs.
  rewrite collect_out, collect_files. simpl.
  repeat split.
  - clearbody cs. induction cs as [| pv cs IH]; [simpl; lia |].
    cbn [omap list_omap].
    destruct (diagnostic pv) as [line |] eqn:Hd.
    + rewrite (diagnostic_not_kept (minSize fl) pv line Hd). cbn [length]. lia.
    + destruct (kept (minSize fl) pv); cbn [length]; lia.
  - intros pv line. apply diagnostic_not_kept.
Qed.

(** A file that cannot be examined and a directory that cannot be listed
    cost one line each, and the file further down is still found. *)
Example broken_tree_scan :
  let fl := {| dir := "."; top := 10; minSize := 1000; daysUnused := 30 |} in
  let c := fst (scan (E := refEnv) fl (inr brokenTree)) in
  out c = [ "Error getting info for gone.txt: lstat gone.txt: no such file or directory";
            "Error accessing locked: open locked: permission denied" ]%string
  /\ files c = [ {| Path := "sub/kept.DAT"; Size := 4096; Ext := ".dat";
                    LastUsed := 7 * Hour |} ]
  /\ map_to_list (directorySizes c) = [("sub"%string, 4096)].
Proof. vm_compute. repeat split. Qed.

(** ** The ways [main] ends *)

(** X2.  A run ends in one of three ways.  With an empty [-dir] it prints
    the one error line and exits with status 1, before the banner and
    without a walk.  Otherwise it prints the banner and the diagnostics of
    the walk, and then either the line that no file was found, when the
    walk kept none, or the report; a report is only ever built from at
    least one record, and [TotalFiles] is the number of records kept. *)
Theorem main_endings {E : GoEnv} (fl : Flags) (lstat : string + FsNode) (now : Time) :
  let fs := omap (kept (minSize fl)) (rootCalls (dir fl) lstat) in
  let lines := omap diagnostic (rootCalls (dir fl) lstat) in
  (dir fl = ""%string ->
   main fl lstat now = (["Error: directory path cannot be empty"%string], Exit1))
  /\ (dir fl <> ""%string -> fs = [] ->
      main fl lstat now =
      (banner fl ++ lines ++ ["No files found matching the criteria."%string],
       NothingFound))
  /\ (dir fl <> ""%string -> fs <> [] ->
      exists r,
        main fl lstat now =
        (banner fl ++ lines ++ printAnalysis now r (top fl) (daysUnused fl), Reported r)
        /\ TotalFiles r = Z.of_nat (length fs) /\ 1 <= TotalFiles r).
Proof.
  intros fs lines. unfold main. rewrite scan_collect.
  rewrite collect_out, collect_files. simpl app. fold fs lines.
  repeat split.
  - intros ->. reflexivity.
  - intros Hdir Hfs. apply String.eqb_neq in Hdir. rewrite Hdir, Hfs. reflexivity.
  - intros Hdir Hfs. apply String.eqb_neq in Hdir. rewrite Hdir.
    destruct fs as [| f fs'] eqn:Hl; [congruence |].
    simpl Nat.eqb. cbv iota.
    eexists. split; [reflexivity |].
    rewrite analyzeFiles_fields. simpl. lia.
Qed.

(** ** The time a record carries *)

(** X4.  Every record of a scan comes from a call for a file whose [Info]
    succeeded, with the path and the size of that call, and its
    [LastUsed] is the time that opening the file's bare name — the name
    alone, resolved in the working directory, not the path of the walk —
    reports, when that succeeds with a time that is not zero; otherwise it
    is the modification time of the entry. *)
Theorem lastUsed_source {E : GoEnv} (fl : Flags) (lstat : string + FsNode)
    (f : FileInfo) :
  In f (files (fst (scan fl lstat))) ->
  exists (name : string) (st : FileStat),
    In (Path f, Entry (FsFile name (inr st))) (rootCalls (dir fl) lstat)
    /\ Size f = st_size st
    /\ LastUsed f =
       match os_OpenModTime name with
       | Some t => if IsZero t then st_modTime st else t
       | None => st_modTime st
       end.
Proof.
  rewrite scan_collect. simpl fst. rewrite collect_files. simpl. intros Hf.
  apply list_elem_of_In, list_elem_of_omap in Hf as ([path v] & Hin & Hk).
  apply list_elem_of_In in Hin.
  unfold kept in Hk. simpl fst in Hk. simpl snd in Hk.
  destruct v as [[name [err | st]| name readErr dirs] | d err]; try discriminate.
  destruct (st_size st <? minSize fl); [discriminate |].
  injection Hk as <-. exists name, st.
  rewrite fileRecord_Path, fileRecord_Size. repeat split; [exact Hin |].
  unfold fileRecord, getAccessTime.
  destruct (os_OpenModTime name) as [t |]; [| reflexivity].
  destruct (IsZero t); reflexivity.
Qed.

Lemma lastUsed_source_witness :
  In probedRecord (files (fst (scan (E := probeEnv) sampleFlags (inr sampleTree))))
  /\ exists (name : string) (st : FileStat),
       In (Path probedRecord, Entry (FsFile name (inr st)))
          (rootCalls (E := probeEnv) (dir sampleFlags) (inr sampleTree))
       /\ Size probedRecord = st_size st
       /\ LastUsed probedRecord =
          match os_OpenModTime (GoEnv := probeEnv) name with
          | Some t => if IsZero t then st_modTime st else t
          | None => st_modTime st
          end.
Proof.
  assert (H : In probedRecord
                (files (fst (scan (E := probeEnv) sampleFlags (inr sampleTree))))).
  { vm_compute. left. reflexivity. }
  split; [exact H |].
  exact (lastUsed_source (E := probeEnv) sampleFlags (inr sampleTree) probedRecord H).
Defined.

(** ** The extension of every path *)

Lemma string_app_nil_r (s : string) : s +:+ "" = s.
Proof. induction s as [| c s IH]; [reflexivity |]. rewrite app_cons. now f_equal. Qed.

Lemma string_snoc (p : string) (i : nat) :
  String.length p = S i ->
  exists p0 c, p = p0 +:+ String c "" /\ String.length p0 = i.
Proof.
  revert i. induction p as [| a p IH]; intros i H; [discriminate |].
  simpl in H. injection H as H. destruct i as [| i].
  - destruct p; [| discriminate]. exists ""%string, a. split; reflexivity.
  - destruct (IH i H) as (p0 & c & Hp & Hl).
    exists (String a p0), c. rewrite app_cons, <- Hp. split; [reflexivity |].
    simpl. now rewrite Hl.
Qed.

(** The loop of [filepath.Ext] ends with nothing, on a separator or at the
    start of the path, or on the last dot of the last element. *)
Lemma Ext_loop_cases (n : nat) :
  forall p b : string,
    String.length p = n -> allChars plainByte b = true ->
    Ext_loop (p +:+ b) n = ""%string
    \/ exists p' s,
         p +:+ b = p' +:+ "." +:+ s /\ allChars plainByte s = true
         /\ Ext_loop (p +:+ b) n = "." +:+ s.
Proof.
  induction n as [| i IH]; intros p b Hp Hb; [now left |].
  destruct (string_snoc p i Hp) as (p0 & c & -> & Hl).
  rewrite string_app_assoc, app_cons, app_nil.
  assert (Hstep : Ext_loop (p0 +:+ String c b) (S i) =
                  if IsPathSeparator c then ""%string
                  else if isDot c then String c b
                  else Ext_loop (p0 +:+ String c b) i).
  { simpl Ext_loop. rewrite <- Hl. rewrite get_app_at.
    rewrite string_length_app.
    replace (String.length p0 + String.length (String c b) - String.length p0)%nat
      with (String.length (String c b)) by lia.
    now rewrite substring_app_at. }
  rewrite Hstep.
  destruct (IsPathSeparator c) eqn:Hs; [now left |].
  destruct (isDot c) eqn:Hd.
  - right. unfold isDot in Hd. apply Ascii.eqb_eq in Hd. subst c.
    exists p0, b. repeat split. exact Hb.
  - apply (IH p0 (String c b) Hl). cbn [allChars]. unfold plainByte at 1.
    now rewrite Hs, Hd, Hb.
Qed.

Lemma lowerByte_idem (c : ascii) : lowerByte (lowerByte c) = lowerByte c.
Proof. destruct c as [[] [] [] [] [] [] [] []]; reflexivity. Qed.

Lemma lowerASCII_idem (s : string) : lowerASCII (lowerASCII s) = lowerASCII s.
Proof.
  induction s as [| c s IH]; simpl; [reflexivity |]. now rewrite lowerByte_idem, IH.
Qed.

(** X5.  A path whose extension holds ASCII bytes only falls under one of
    two cases: its last element has no dot, and the key is "no_extension";
    or the path ends in a dot followed by bytes that are neither dots nor
    separators, and the key is the dot followed by those bytes with
    ['A'..'Z'] replaced by ['a'..'z'].  So for such paths the key
    "no_extension" stands for the files without an extension and for no
    others — every other key starts with a dot — and no key holds an
    upper-case ASCII letter. *)
Theorem extension_cases {E : GoEnv} (path : string) :
  allChars isASCII (filepath_Ext path) = true ->
  ((filepath_Ext path = ""%string /\ extensionOf path = "no_extension"%string)
   \/ exists p s,
        path = p +:+ "." +:+ s /\ allChars plainByte s = true
        /\ extensionOf path = "." +:+ lowerASCII s)
  /\ (extensionOf path = "no_extension"%string <-> filepath_Ext path = ""%string)
  /\ lowerASCII (extensionOf path) = extensionOf path.
Proof.
  intros Ha.
  assert (Hc : filepath_Ext path = ""%string
               \/ exists p s, path = p +:+ "." +:+ s /\ allChars plainByte s = true
                              /\ filepath_Ext path = "." +:+ s).
  { unfold filepath_Ext.
    pose proof (Ext_loop_cases (String.length path) path "" eq_refl eq_refl) as H.
    rewrite string_app_nil_r in H. exact H. }
  unfold extensionOf. rewrite (ToLower_ascii _ Ha).
  destruct Hc as [-> | (p & s & Hp & Hs & ->)]; simpl lowerASCII; simpl String.eqb.
  - repeat split; try reflexivity. now left.
  - change ("." +:+ s) with (String "." s). simpl lowerASCII.
    change (lowerByte ".") with "."%char. simpl String.eqb.
    repeat split; try discriminate.
    + right. exists p, s. repeat split; assumption.
    + simpl. change (lowerByte ".") with "."%char. now rewrite lowerASCII_idem.
Qed.

Lemma extension_cases_witness :
  allChars isASCII (filepath_Ext "docs/a.TXT") = true
  /\ (extensionOf (E := refEnv) "docs/a.TXT" = "no_extension"%string
      <-> filepath_Ext "docs/a.TXT" = ""%string)
  /\ lowerASCII (extensionOf (E := refEnv) "docs/a.TXT") =
     extensionOf (E := refEnv) "docs/a.TXT".
Proof.
  assert (H : allChars isASCII (filepath_Ext "docs/a.TXT") = true) by reflexivity.
  split; [exact H |].
  exact (proj2 (extension_cases (E := refEnv) "docs/a.TXT" H)).
Defined.

(** ** The rankings and their sections *)

(** X9.  The three orderings that the program hands to [sort.Slice] —
    by size, by [LastUsed], and by value in [printSortedMap] with the
    [less] of the three grouped sections — are strict weak orderings, as
    [sort.Slice] requires of its [less]. *)
Theorem comparators_strict_weak :
  StrictWeak bySize /\ StrictWeak byLastUsed
  /\ StrictWeak (fun a b : string * Z => greater (snd a) (snd b)).
Proof.
  split; [exact StrictWeak_bySize |].
  split; [exact StrictWeak_byLastUsed | exact (StrictWeak_greater snd)].
Qed.

Lemma filter_perm {A : Type} (p : A -> bool) (l l' : list A) :
  Permutation l l' -> Permutation (List.filter p l) (List.filter p l').
Proof.
  induction 1 as [| x l l' _ IH | x y l | l l' l'' _ IH1 _ IH2]; simpl.
  - constructor.
  - destruct (p x); [now constructor | exact IH].
  - destruct (p x), (p y); try reflexivity. apply perm_swap.
  - now transitivity (List.filter p l').
Qed.

Lemma StronglySorted_filter {A : Type} (R : A -> A -> Prop) (p : A -> bool) (l : list A) :
  StronglySorted R l -> StronglySorted R (List.filter p l).
Proof.
  induction 1 as [| x l Hl IH Hx]; simpl; [constructor |].
  destruct (p x); [| exact IH].
  constructor; [exact IH |].
  apply List.Forall_forall. intros y Hy. apply filter_In in Hy as [Hy _].
  rewrite List.Forall_forall in Hx. exact (Hx y Hy).
Qed.

(** In a ranking by [LastUsed] the stale records come first. *)
Lemma stale_first (cutoff : Time) (l : list FileInfo) :
  StronglySorted (fun x y => LastUsed x <= LastUsed y) l ->
  l = staleFiles cutoff l
      ++ List.filter (fun f => negb (Before (LastUsed f) cutoff)) l.
Proof.
  unfold staleFiles. induction 1 as [| x l Hl IH Hx]; simpl; [reflexivity |].
  destruct (Before (LastUsed x) cutoff) eqn:Hb; simpl.
  - now rewrite <- IH.
  - unfold Before in Hb. apply Z.ltb_ge in Hb.
    assert (Hnone : List.filter (fun f => Before (LastUsed f) cutoff) l = []).
    { clear IH Hl. induction l as [| y l IHl]; simpl; [reflexivity |].
      apply Forall_cons in Hx as [Hy Hx].
      replace (Before (LastUsed y) cutoff) with false
        by (symmetry; apply Z.ltb_ge; lia).
      exact (IHl Hx). }
    rewrite Hnone in IH |- *. simpl in *. now rewrite <- IH.
Qed.

Lemma sorted_by_lastUsed {E : GoEnv} {ES : GoEnvSpec E} (fs : list FileInfo) :
  StronglySorted (fun x y => LastUsed x <= LastUsed y) (sort_Slice byLastUsed fs).
Proof.
  eapply StronglySorted_impl;
    [| apply (Sorted_notAfter_strong byLastUsed StrictWeak_byLastUsed);
       apply Slice_sorted, StrictWeak_byLastUsed].
  intros x y. unfold notAfter, byLastUsed, Before. intros H.
  apply Z.ltb_ge in H. exact H.
Qed.

Lemma sorted_by_size {E : GoEnv} {ES : GoEnvSpec E} (fs : list FileInfo) :
  StronglySorted (fun x y => Size y <= Size x) (sort_Slice bySize fs).
Proof.
  eapply StronglySorted_impl;
    [| apply (Sorted_notAfter_strong bySize StrictWeak_bySize);
       apply Slice_sorted, StrictWeak_bySize].
  intros x y. unfold notAfter, bySize. intros H. apply Z.ltb_ge in H. exact H.
Qed.

Lemma sumSizes_perm (l l' : list FileInfo) :
  Permutation l l' -> sumSizes l = sumSizes l'.
Proof.
  unfold sumSizes.
  induction 1 as [| x l l' _ IH | x y l | l l' l'' _ IH1 _ IH2]; simpl; lia.
Qed.

(** X10.  In the summary of a scan the two rankings hold the same records,
    [TotalFiles] is the length of either, and [TotalSize] is the wrapped
    sum of the sizes listed in either. *)
Theorem rankings_agree {E : GoEnv} {ES : GoEnvSpec E} (fl : Flags)
    (lstat : string + FsNode) :
  let c := fst (scan fl lstat) in
  let r := analyzeFiles (files c) (totalSize c) (directorySizes c) (daysUnused fl) in
  Permutation (LargestFiles r) (OldestFiles r)
  /\ TotalFiles r = Z.of_nat (length (LargestFiles r))
  /\ TotalFiles r = Z.of_nat (length (OldestFiles r))
  /\ TotalSize r = wrap64 (sumSizes (LargestFiles r))
  /\ TotalSize r = wrap64 (sumSizes (OldestFiles r)).
Proof.
  intros c r. subst c r. rewrite scan_collect. simpl fst.
  set (cs := rootCalls (dir fl) lstat).
  rewrite analyzeFiles_fields. simpl.
  rewrite (collect_totalSize_sum (minSize fl) cs).
  set (fs := files (collect (minSize fl) cs emptyCollector)).
  pose proof (Slice_perm _ bySize fs) as Hl.
  pose proof (Slice_perm _ byLastUsed fs) as Ho.
  repeat split.
  - now rewrite <- Hl, <- Ho.
  - now rewrite (Permutation_length Hl).
  - now rewrite (Permutation_length Ho).
  - now rewrite (sumSizes_perm _ _ Hl).
  - now rewrite (sumSizes_perm _ _ Ho).
Qed.

Lemma rankings_agree_witness :
  GoEnvSpec refEnv
  /\ (let c := fst (scan (E := refEnv) sampleFlags (inr sampleTree)) in
      let r := analyzeFiles (E := refEnv) (files c) (totalSize c) (directorySizes c)
                 (daysUnused sampleFlags) in
      Permutation (LargestFiles r) (OldestFiles r)
      /\ TotalFiles r = Z.of_nat (length (LargestFiles r))
      /\ TotalFiles r = Z.of_nat (length (OldestFiles r))
      /\ TotalSize r = wrap64 (sumSizes (LargestFiles r))
      /\ TotalSize r = wrap64 (sumSizes (OldestFiles r))).
Proof.
  split; [exact refEnv_spec |].
  exact (rankings_agree (E := refEnv) (ES := refEnv_spec) sampleFlags (inr sampleTree)).
Defined.

(** X11.  The section of the largest files shows the head of
    [LargestFiles]: the first [min topN n] of the [n] records, which
    together with the ones left out are the records analysed, in an order
    of non-increasing size, so that no record left out is larger than one
    shown. *)
Theorem largest_section_topN {E : GoEnv} {ES : GoEnvSpec E} (now : Time)
    (fs : list FileInfo) (total : Z) (ds : gmap string Z) (days topN : Z) :
  let r := analyzeFiles fs total ds days in
  exists shown rest : list FileInfo,
    LargestFiles r = shown ++ rest
    /\ largestSection now r topN = map (fileLine now) shown
    /\ Permutation (shown ++ rest) fs
    /\ StronglySorted (fun x y => Size y <= Size x) (shown ++ rest)
    /\ length shown = Nat.min (Z.to_nat topN) (length fs).
Proof.
  intros r. subst r. unfold largestSection. rewrite analyzeFiles_fields.
  simpl LargestFiles. set (all := sort_Slice bySize fs).
  exists (firstn (Z.to_nat topN) all), (skipn (Z.to_nat topN) all).
  rewrite firstn_skipn. repeat split.
  - rewrite topLoop_firstn. now rewrite Z.sub_0_r.
  - symmetry. apply Slice_perm.
  - apply sorted_by_size.
  - rewrite length_firstn. f_equal. symmetry. apply Permutation_length, Slice_perm.
Qed.

Lemma largest_section_topN_witness :
  GoEnvSpec refEnv
  /\ exists shown rest : list FileInfo,
       LargestFiles (analyzeFiles (E := refEnv) thirteenFiles 0 ∅ 30) = shown ++ rest
       /\ largestSection (100 * 24 * Hour)
            (analyzeFiles (E := refEnv) thirteenFiles 0 ∅ 30) 3 =
          map (fileLine (100 * 24 * Hour)) shown
       /\ Permutation (shown ++ rest) thirteenFiles
       /\ StronglySorted (fun x y => Size y <= Size x) (shown ++ rest)
       /\ length shown = Nat.min (Z.to_nat 3) (length thirteenFiles).
Proof.
  split; [exact refEnv_spec |].
  exact (largest_section_topN (E := refEnv) (ES := refEnv_spec)
           (100 * 24 * Hour) thirteenFiles 0 ∅ 30 3).
Defined.

(** X12.  With [topN >= 1], the section of unused files shows the records
    that were used least recently: [OldestFiles] begins with the stale
    records, in order of non-decreasing [LastUsed], and the section shows
    the first [min topN k] of these [k]; every record after them is no
    older than the cutoff. *)
Theorem unused_section_oldest {E : GoEnv} {ES : GoEnvSpec E} (now : Time)
    (fs : list FileInfo) (total : Z) (ds : gmap string Z) (days topN : Z) :
  1 <= topN ->
  let r := analyzeFiles fs total ds days in
  let cutoff := cutoffOf now days in
  exists shown rest fresh : list FileInfo,
    OldestFiles r = shown ++ rest ++ fresh
    /\ Permutation (shown ++ rest) (staleFiles cutoff fs)
    /\ Forall (fun f => cutoff <= LastUsed f) fresh
    /\ StronglySorted (fun x y => LastUsed x <= LastUsed y) (shown ++ rest)
    /\ length shown = Nat.min (Z.to_nat topN) (length (staleFiles cutoff fs))
    /\ unusedSection now r topN days =
       match shown with
       | [] => [noneFound]
       | _ :: _ => map (fileLine now) shown
       end.
Proof.
  intros Htop r cutoff. subst r. unfold unusedSection.
  rewrite analyzeFiles_fields. simpl OldestFiles. fold cutoff.
  set (all := sort_Slice byLastUsed fs).
  pose proof (sorted_by_lastUsed fs) as Hsorted. fold all in Hsorted.
  set (stale := staleFiles cutoff all).
  assert (Hperm : Permutation stale (staleFiles cutoff fs)).
  { subst stale. unfold staleFiles. apply filter_perm. symmetry. apply Slice_perm. }
  exists (firstn (Z.to_nat topN) stale), (skipn (Z.to_nat topN) stale),
    (List.filter (fun f => negb (Before (LastUsed f) cutoff)) all).
  rewrite app_assoc, firstn_skipn. repeat split.
  - apply stale_first. exact Hsorted.
  - exact Hperm.
  - apply List.Forall_forall. intros f Hf. apply filter_In in Hf as [_ Hf].
    apply negb_true_iff in Hf. unfold Before in Hf. apply Z.ltb_ge in Hf. exact Hf.
  - subst stale. unfold staleFiles. apply StronglySorted_filter. exact Hsorted.
  - rewrite length_firstn. f_equal. apply Permutation_length. exact Hperm.
  - rewrite unusedLoop_spec. fold stale.
    rewrite Z.sub_0_r, Z.max_r by lia.
    destruct stale as [| f stale'] eqn:Hs.
    + rewrite firstn_nil. reflexivity.
    + destruct (Z.to_nat topN) as [| n] eqn:Hn; [lia |].
      simpl firstn. simpl length.
      replace (0 + Z.of_nat (S (length (firstn n stale'))) =? 0) with false
        by (symmetry; apply Z.eqb_neq; lia).
      reflexivity.
Qed.

Lemma unused_section_oldest_witness :
  (1 <= 2 /\ GoEnvSpec refEnv)
  /\ exists shown rest fresh : list FileInfo,
       OldestFiles (analyzeFiles (E := refEnv) twoAges 3000000 ∅ 30) =
         shown ++ rest ++ fresh
       /\ Permutation (shown ++ rest)
            (staleFiles (cutoffOf (E := refEnv) (100 * 24 * Hour) 30) twoAges)
       /\ Forall (fun f => cutoffOf (E := refEnv) (100 * 24 * Hour) 30 <= LastUsed f) fresh
       /\ StronglySorted (fun x y => LastUsed x <= LastUsed y) (shown ++ rest)
       /\ length shown =
          Nat.min (Z.to_nat 2)
            (length (staleFiles (cutoffOf (E := refEnv) (100 * 24 * Hour) 30) twoAges))
       /\ unusedSection (E := refEnv) (100 * 24 * Hour)
            (analyzeFiles (E := refEnv) twoAges 3000000 ∅ 30) 2 30 =
          match shown with
          | [] => [noneFound]
          | _ :: _ => map (fileLine (100 * 24 * Hour)) shown
          end.
Proof.
  assert (H : 1 <= 2) by lia.
  split; [split; [exact H | exact refEnv_spec] |].
  exact (unused_section_oldest (E := refEnv) (ES := refEnv_spec)
           (100 * 24 * Hour) twoAges 3000000 ∅ 30 2 H).
Defined.

(** ** The report as [topN] varies *)

Lemma firstn_le_prefix {A : Type} (a b : nat) (l : list A) :
  (a <= b)%nat -> firstn b l = firstn a l ++ skipn a (firstn b l).
Proof.
  intros Hab. rewrite <- (firstn_skipn a (firstn b l)) at 1.
  rewrite firstn_firstn. now replace (Nat.min a b) with a by lia.
Qed.

Lemma topLoop_grows {A : Type} (render : A -> string) (n n' : Z) (xs : list A) :
  n <= n' -> exists more, topLoop render n' 0 xs = topLoop render n 0 xs ++ more.
Proof.
  intros Hn. rewrite !topLoop_firstn, !Z.sub_0_r.
  rewrite (firstn_le_prefix (Z.to_nat n) (Z.to_nat n')) by lia.
  rewrite map_app. eexists. reflexivity.
Qed.

(** X13.  For one summary and one clock reading, asking for more entries
    only adds to the two sections of files: for [n <= n'], the section of
    the largest files and the section of unused files printed for [n']
    begin with the section printed for [n]; this holds for every [n],
    below one as well.  (The grouped sections range over a map, in an order
    that is fixed anew for each printing, so nothing of the kind is said of
    them.) *)
Theorem sections_grow_with_topN {E : GoEnv} (now : Time) (r : AnalysisResults)
    (n n' days : Z) :
  n <= n' ->
  (exists more, largestSection now r n' = largestSection now r n ++ more)
  /\ (exists more, unusedSection now r n' days = unusedSection now r n days ++ more).
Proof.
  intros Hn. unfold largestSection.
  split; [now apply topLoop_grows |].
  unfold unusedSection. rewrite !unusedLoop_spec, !Z.sub_0_r.
  set (stale := staleFiles (cutoffOf now days) (OldestFiles r)).
  destruct stale as [| f stale'].
  - rewrite !firstn_nil. simpl. exists []. reflexivity.
  - destruct (Z.to_nat (Z.max 1 n)) as [| k] eqn:Hk; [lia |].
    destruct (Z.to_nat (Z.max 1 n')) as [| k'] eqn:Hk'; [lia |].
    simpl firstn. simpl length.
    replace (0 + Z.of_nat (S (length (firstn k stale'))) =? 0) with false
      by (symmetry; apply Z.eqb_neq; lia).
    replace (0 + Z.of_nat (S (length (firstn k' stale'))) =? 0) with false
      by (symmetry; apply Z.eqb_neq; lia).
    rewrite (firstn_le_prefix k k') by lia.
    rewrite app_comm_cons, map_app. eexists. reflexivity.
Qed.

Lemma sections_grow_with_topN_witness :
  2 <= 5
  /\ exists more,
       largestSection (100 * 24 * Hour)
         (analyzeFiles (E := refEnv) thirteenFiles 0 ∅ 30) 5 =
       largestSection (100 * 24 * Hour)
         (analyzeFiles (E := refEnv) thirteenFiles 0 ∅ 30) 2 ++ more.
Proof.
  assert (H : 2 <= 5) by lia.
  split; [exact H |].
  exact (proj1 (sections_grow_with_topN (E := refEnv) (100 * 24 * Hour)
                  (analyzeFiles (E := refEnv) thirteenFiles 0 ∅ 30) 2 5 30 H)).
Defined.

(** ** The lines of a report *)

Lemma oneLine_app (a b : string) : oneLine (a +:+ b) = oneLine a && oneLine b.
Proof.
  unfold oneLine. induction a as [| c a IH]; [reflexivity |].
  rewrite app_cons. simpl. now rewrite IH, andb_assoc.
Qed.

Lemma oneLine_newlines (s : string) : oneLine s = true -> newlines s = O.
Proof.
  unfold oneLine. induction s as [| c s IH]; [reflexivity |]. simpl.
  intros H. apply andb_prop in H as [Hc Hs]. apply negb_true_iff in Hc.
  now rewrite Hc, IH.
Qed.

Lemma lineCount_oneLine (texts : list string) :
  Forall (fun s => oneLine s = true) texts -> lineCount texts = length texts.
Proof.
  induction 1 as [| s texts Hs _ IH]; [reflexivity |].
  simpl. now rewrite (oneLine_newlines s Hs), IH.
Qed.

Lemma oneLine_pretty_N_go (x : N) :
  forall s, oneLine s = true -> oneLine (pretty_N_go x s) = true.
Proof.
  induction (N.lt_wf_0 x) as [x _ IH]; intros s Hs.
  destruct (N.eq_dec x 0%N) as [-> | Hx]; [exact Hs |].
  rewrite pretty_N_go_step by lia. apply IH; [apply N.div_lt; lia |].
  unfold oneLine in *. simpl. rewrite Hs, andb_true_r.
  unfold pretty_N_char. repeat case_match; reflexivity.
Qed.

Lemma oneLine_pretty_Z (z : Z) : oneLine (pretty z) = true.
Proof.
  assert (Hp : forall p : positive, oneLine (pretty p) = true).
  { intros p. unfold pretty, pretty_positive, pretty, pretty_N.
    case_decide; [reflexivity | now apply oneLine_pretty_N_go]. }
  destruct z as [| p | p]; [reflexivity | apply Hp |].
  unfold pretty, pretty_Z. rewrite oneLine_app. now rewrite Hp.
Qed.

Lemma oneLine_padDigits (w : nat) (n : Z) : oneLine (padDigits w n) = true.
Proof.
  revert n. induction w as [| w IH]; intros n; [reflexivity |].
  simpl. now rewrite oneLine_app, IH, oneLine_pretty_Z.
Qed.

Lemma oneLine_fmt_f (prec : nat) (x : float64) : oneLine (fmt_f prec x) = true.
Proof.
  assert (Hfix : forall t, oneLine (fixedPoint prec t) = true).
  { intros t. unfold fixedPoint. destruct prec; [apply oneLine_pretty_Z |].
    now rewrite !oneLine_app, oneLine_pretty_Z, oneLine_padDigits. }
  assert (Hsign : forall s, oneLine (signText s) = true) by (intros []; reflexivity).
  destruct x as [s | s | | s m e]; unfold fmt_f.
  - now rewrite oneLine_app, Hsign, Hfix.
  - destruct s; reflexivity.
  - reflexivity.
  - now rewrite oneLine_app, Hsign, Hfix.
Qed.

Lemma oneLine_formatSize (size : Z) : oneLine (formatSize size) = true.
Proof.
  unfold formatSize. destruct (size <? unit_).
  - now rewrite oneLine_app, oneLine_pretty_Z.
  - destruct (formatSize_loop 7 (Z.quot size unit_) unit_ 0) as [div exp].
    rewrite !oneLine_app, oneLine_fmt_f. simpl.
    unfold unitLetter. generalize (Z.to_nat exp). intros n.
    do 6 (destruct n as [| n]; [reflexivity |]). reflexivity.
Qed.

Lemma oneLine_formatTime (now t : Time) : oneLine (formatTime now t) = true.
Proof.
  unfold formatTime.
  repeat match goal with
         | |- context [if ?b then _ else _] => destruct b
         end;
    rewrite ?oneLine_app, ?oneLine_fmt_f; reflexivity.
Qed.

Lemma oneLine_fileLine (now : Time) (f : FileInfo) :
  oneLine (Path f) = true -> oneLine (fileLine now f) = true.
Proof.
  intros Hp. unfold fileLine.
  now rewrite !oneLine_app, oneLine_formatSize, oneLine_formatTime, Hp.
Qed.

Lemma In_firstn {A : Type} (x : A) (n : nat) (l : list A) :
  In x (firstn n l) -> In x l.
Proof.
  revert l. induction n as [| n IH]; intros [| y l]; simpl; try tauto.
  intros [-> | H]; [now left | right; now apply IH].
Qed.

Lemma oneLine_topLoop {A : Type} (render : A -> string) (topN : Z) (xs : list A) (i : Z) :
  Forall (fun x => oneLine (render x) = true) xs ->
  Forall (fun s => oneLine s = true) (topLoop render topN i xs).
Proof.
  intros Hxs. rewrite topLoop_firstn. apply List.Forall_forall. intros s Hs.
  apply in_map_iff in Hs as (x & <- & Hx). apply In_firstn in Hx.
  rewrite List.Forall_forall in Hxs. exact (Hxs x Hx).
Qed.

Lemma oneLine_unusedSection {E : GoEnv} (now : Time) (r : AnalysisResults)
    (topN days : Z) :
  Forall (fun f => oneLine (Path f) = true) (OldestFiles r) ->
  Forall (fun s => oneLine s = true) (unusedSection now r topN days).
Proof.
  intros Hr. unfold unusedSection. rewrite unusedLoop_spec.
  set (shown := firstn _ _).
  assert (Hshown : Forall (fun s => oneLine s = true) (map (fileLine now) shown)).
  { apply List.Forall_forall. intros s Hs.
    apply in_map_iff in Hs as (f & <- & Hf). subst shown.
    apply In_firstn in Hf. unfold staleFiles in Hf. apply filter_In in Hf as [Hf _].
    rewrite List.Forall_forall in Hr. apply oneLine_fileLine. exact (Hr f Hf). }
  destruct (_ =? 0); [| exact Hshown].
  apply Forall_app. split; [exact Hshown | repeat constructor].
Qed.

Lemma oneLine_printSortedMap {E : GoEnv} {ES : GoEnvSpec E} (m : gmap string Z)
    (topN : Z) (format : Z -> string) :
  (forall v, oneLine (format v) = true) ->
  map_Forall (fun k _ => oneLine k = true) m ->
  Forall (fun s => oneLine s = true) (printSortedMap m topN greater format).
Proof.
  intros Hfmt Hm. unfold printSortedMap. apply oneLine_topLoop.
  apply List.Forall_forall. intros [k v] Hkv. unfold sortedEntries in Hkv.
  apply (Permutation_in _ (Permutation_sym (Slice_perm _ _ _))) in Hkv.
  apply (Permutation_in _ (range_perm _ m)) in Hkv.
  apply list_elem_of_In, elem_of_map_to_list in Hkv.
  unfold entryLine. simpl. rewrite !oneLine_app, Hfmt. simpl.
  exact (Hm k v Hkv).
Qed.

(** X14.  When no path and no key of the summary holds a newline byte,
    every text of the report fills one line, and the report has between 15
    and [14 + 5 * max 1 topN] lines: its fourteen lines of headings and
    totals, at least one line in the section of unused files, and at most
    [max 1 topN] lines in each of the five sections.  (Paths and keys are
    printed as they are, so a name that holds a newline byte takes more
    than one line.) *)
Theorem report_line_bounds {E : GoEnv} {ES : GoEnvSpec E} (now : Time)
    (r : AnalysisResults) (topN days : Z) :
  Forall (fun f => oneLine (Path f) = true) (LargestFiles r) ->
  Forall (fun f => oneLine (Path f) = true) (OldestFiles r) ->
  map_Forall (fun k _ => oneLine k = true) (FilesByExtension r) ->
  map_Forall (fun k _ => oneLine k = true) (SizeByExtension r) ->
  map_Forall (fun k _ => oneLine k = true) (DirectorySizes r) ->
  let report := printAnalysis now r topN days in
  Forall (fun s => oneLine s = true) report
  /\ lineCount report = length report
  /\ (15 <= lineCount report <= 14 + 5 * Z.to_nat (Z.max 1 topN))%nat.
Proof.
  intros Hl Ho Hc Hs Hd report.
  assert (Hall : Forall (fun s => oneLine s = true) report).
  { subst report. unfold printAnalysis, generalSection.
    repeat (apply Forall_app; split).
    - repeat constructor; rewrite !oneLine_app, ?oneLine_pretty_Z, ?oneLine_formatSize;
        reflexivity.
    - repeat constructor. now rewrite !oneLine_app, oneLine_pretty_Z.
    - apply oneLine_topLoop. eapply List.Forall_impl; [| exact Hl].
      intros f. apply oneLine_fileLine.
    - repeat constructor. now rewrite !oneLine_app, !oneLine_pretty_Z.
    - now apply oneLine_unusedSection.
    - repeat constructor.
    - apply oneLine_printSortedMap; [| exact Hc].
      intros v. unfold countText. now rewrite oneLine_app, oneLine_pretty_Z.
    - repeat constructor.
    - apply oneLine_printSortedMap; [apply oneLine_formatSize | exact Hs].
    - repeat constructor. now rewrite !oneLine_app, oneLine_pretty_Z.
    - apply oneLine_printSortedMap; [apply oneLine_formatSize | exact Hd]. }
  split; [exact Hall |].
  rewrite (lineCount_oneLine report Hall). split; [reflexivity |].
  subst report.
  assert (Htop : forall (A : Type) (render : A -> string) (xs : list A),
            (length (topLoop render topN 0 xs) <= Z.to_nat (Z.max 1 topN))%nat).
  { intros A render xs. rewrite topLoop_firstn, length_map, length_firstn. lia. }
  assert (Hun : (1 <= length (unusedSection now r topN days)
                 <= Z.to_nat (Z.max 1 topN))%nat).
  { unfold unusedSection. rewrite unusedLoop_spec, Z.sub_0_r.
    set (shown := firstn _ _).
    assert (Hsh : (length shown <= Z.to_nat (Z.max 1 topN))%nat)
      by (subst shown; rewrite length_firstn; lia).
    destruct (0 + Z.of_nat (length shown) =? 0) eqn:Hz.
    - apply Z.eqb_eq in Hz. rewrite length_app, length_map. simpl. lia.
    - apply Z.eqb_neq in Hz. rewrite length_map. lia. }
  unfold printAnalysis, generalSection, largestSection, countSection, sizeSection,
    directorySection, printSortedMap.
  rewrite !length_app. cbn [length].
  pose proof (Htop _ (fileLine now) (LargestFiles r)).
  pose proof (Htop _ (entryLine countText) (sortedEntries (FilesByExtension r) greater)).
  pose proof (Htop _ (entryLine formatSize) (sortedEntries (SizeByExtension r) greater)).
  pose proof (Htop _ (entryLine formatSize) (sortedEntries (DirectorySizes r) greater)).
  lia.
Qed.

Lemma report_line_bounds_witness :
  (GoEnvSpec refEnv
   /\ Forall (fun f => oneLine (Path f) = true) (LargestFiles oneFileSummary)
   /\ Forall (fun f => oneLine (Path f) = true) (OldestFiles oneFileSummary)
   /\ map_Forall (fun k _ => oneLine k = true) (FilesByExtension oneFileSummary)
   /\ map_Forall (fun k _ => oneLine k = true) (SizeByExtension oneFileSummary)
   /\ map_Forall (fun k _ => oneLine k = true) (DirectorySizes oneFileSummary))
  /\ (let report := printAnalysis (E := refEnv) (100 * 24 * Hour) oneFileSummary 3 30 in
      (15 <= lineCount report <= 14 + 5 * Z.to_nat (Z.max 1 3))%nat).
Proof.
  assert (H1 : Forall (fun f => oneLine (Path f) = true) (LargestFiles oneFileSummary))
    by (repeat constructor).
  assert (H2 : Forall (fun f => oneLine (Path f) = true) (OldestFiles oneFileSummary))
    by (repeat constructor).
  assert (H3 : map_Forall (fun k (_ : Z) => oneLine k = true)
                 (FilesByExtension oneFileSummary))
    by (apply map_Forall_singleton; reflexivity).
  assert (H4 : map_Forall (fun k (_ : Z) => oneLine k = true)
                 (SizeByExtension oneFileSummary))
    by (apply map_Forall_singleton; reflexivity).
  assert (H5 : map_Forall (fun k (_ : Z) => oneLine k = true)
                 (DirectorySizes oneFileSummary))
    by (apply map_Forall_singleton; reflexivity).
  split; [pose proof refEnv_spec; auto 10 |].
  exact (proj2 (proj2 (report_line_bounds (E := refEnv) (ES := refEnv_spec)
                         (100 * 24 * Hour) oneFileSummary 3 30 H1 H2 H3 H4 H5))).
Defined.

(** A path with a newline byte in it: the line of the file is one text and
    two lines. *)
Example newline_in_a_name :
  let f := {| Path := String "a" (String "010" "b.txt"); Size := 10; Ext := ".txt";
              LastUsed := 0 |} in
  length [fileLine 0 f] = 1%nat /\ lineCount [fileLine 0 f] = 2%nat.
Proof. vm_compute. split; reflexivity. Qed.

(** ** The two formatters at their limits *)

Lemma roundHalfEven_bounds (num den : Z) :
  num / den <= roundHalfEven num den <= num / den + 1.
Proof.
  unfold roundHalfEven.
  destruct (2 * (num mod den) ?= den); [destruct (Z.even _) | |]; lia.
Qed.

(** X15.  From 1024 bytes up to [2^53], the number that [formatSize]
    prints lies between 1.0 and 1024.0: the unit is chosen by integer
    division and the number is rounded afterwards, so a size just below
    the next unit is printed as 1024.0 of the unit below — one byte less
    than a mebibyte is "1024.0 KiB". *)
Theorem formatSize_number_range (size : Z) :
  1024 <= size < 2 ^ 53 ->
  (exists k whole tenth : Z,
     1 <= k <= 5 /\ 1024 ^ k <= size < 1024 ^ (k + 1)
     /\ formatSize size =
        pretty whole +:+ "." +:+ pretty tenth +:+ " " +:+ unitOf k +:+ "iB"
     /\ 1 <= whole <= 1024 /\ 0 <= tenth <= 9
     /\ (whole = 1024 -> tenth = 0))
  /\ formatSize (1024 * 1024 - 1) = "1024.0 KiB"%string.
Proof.
  intros Hsize. split; [| vm_compute; reflexivity].
  assert (Hj : exists j : nat,
            (j < 5)%nat /\ 1024 ^ (Z.of_nat j + 1) <= size < 1024 ^ (Z.of_nat j + 2)).
  { destruct (Z_lt_le_dec size (1024 ^ 2)); [exists 0%nat; simpl; lia |].
    destruct (Z_lt_le_dec size (1024 ^ 3)); [exists 1%nat; simpl; lia |].
    destruct (Z_lt_le_dec size (1024 ^ 4)); [exists 2%nat; simpl; lia |].
    destruct (Z_lt_le_dec size (1024 ^ 5)); [exists 3%nat; simpl; lia |].
    exists 4%nat; simpl; lia. }
  destruct Hj as (j & Hj & Hs).
  destruct (formatSize_large j size ltac:(lia) Hs ltac:(unfold maxInt64; lia))
    as (m & e & Hq & Htext & Hexact).
  specialize (Hexact ltac:(lia)).
  set (T := scaledDigits 1 m e) in *.
  set (den := 1024 ^ (Z.of_nat j + 1)) in *.
  assert (Hden : 0 < den) by (subst den; apply Z.pow_pos_nonneg; lia).
  assert (Hnext : 1024 ^ (Z.of_nat j + 2) = den * 1024).
  { subst den. replace (Z.of_nat j + 2) with (Z.of_nat j + 1 + 1) by lia.
    rewrite (Z.pow_add_r 1024 (Z.of_nat j + 1) 1) by lia. reflexivity. }
  rewrite Hnext in Hs.
  pose proof (roundHalfEven_bounds (10 * size) den) as Hb. rewrite <- Hexact in Hb.
  assert (Hlo : 10 <= 10 * size / den) by (apply Z.div_le_lower_bound; lia).
  assert (Hhi : 10 * size / den < 10240) by (apply Z.div_lt_upper_bound; lia).
  assert (HT : 10 <= T <= 10240) by lia.
  exists (Z.of_nat j + 1), (T / 10), (T mod 10).
  replace (Z.of_nat j + 1 + 1) with (Z.of_nat j + 2) by lia. rewrite Hnext.
  pose proof (Z.div_mod T 10 ltac:(lia)) as Hdm.
  pose proof (Z.mod_pos_bound T 10 ltac:(lia)) as Hm.
  repeat split; try lia.
  rewrite Htext, fmt_f1_finite. fold T. now rewrite !string_app_assoc.
Qed.

Lemma formatSize_number_range_witness :
  1024 <= 1500000 < 2 ^ 53
  /\ exists k whole tenth : Z,
       1 <= k <= 5 /\ 1024 ^ k <= 1500000 < 1024 ^ (k + 1)
       /\ formatSize 1500000 =
          pretty whole +:+ "." +:+ pretty tenth +:+ " " +:+ unitOf k +:+ "iB"
       /\ 1 <= whole <= 1024 /\ 0 <= tenth <= 9
       /\ (whole = 1024 -> tenth = 0).
Proof.
  assert (H : 1024 <= 1500000 < 2 ^ 53) by (simpl; lia).
  split; [exact H | exact (proj1 (formatSize_number_range 1500000 H))].
Defined.

(** X16.  [formatTime] at the ends of its range, for a timestamp that is
    not zero: one that lies less than a minute back, or anywhere in the
    future, is rendered as "just now"; and since [Sub] saturates, every
    timestamp that lies [2^63 - 1] nanoseconds or more back is rendered as
    "292 years ago", however old it is. *)
Theorem formatTime_clamped (now t : Time) :
  IsZero t = false ->
  (now - t < Minute -> formatTime now t = "just now"%string)
  /\ (maxInt64 <= now - t -> formatTime now t = "292 years ago"%string).
Proof.
  intros Hz. unfold formatTime. rewrite Hz. split; intros Hd.
  - replace (Sub now t <? Minute) with true; [reflexivity |].
    symmetry. apply Z.ltb_lt. unfold Sub, Minute, Second, minInt64, maxInt64 in *. lia.
  - replace (Sub now t) with maxInt64
      by (unfold Sub, minInt64, maxInt64 in *; lia).
    vm_compute. reflexivity.
Qed.

Lemma formatTime_clamped_witness :
  IsZero (200 * 24 * Hour) = false
  /\ (100 * 24 * Hour - 200 * 24 * Hour < Minute ->
      formatTime (100 * 24 * Hour) (200 * 24 * Hour) = "just now"%string).
Proof.
  assert (H : IsZero (200 * 24 * Hour) = false) by reflexivity.
  split; [exact H | exact (proj1 (formatTime_clamped (100 * 24 * Hour) (200 * 24 * Hour) H))].
Defined.
